(** * Startup and request handling of the three-tier backend (backend/server.js)

    A shallow embedding of [backend/server.js].  The program talks to four
    outside parties: the SSM parameter store, the MySQL driver, the Node
    process (console, timers, environment, exit) and the HTTP layer.  Every
    call to one of them is recorded as an [Event]; what the outside answers
    is given by a [World], whose answers may depend on everything that
    happened before (the list of events so far).  Asynchronous functions are
    run to completion one after the other, which is how the startup path of
    the source executes (every call is awaited). *)

From stdpp Require Import gmap strings list pretty.
From Stdlib Require Import Ascii QArith.

Open Scope Z_scope.

#[local] Set Warnings "-register-all".

(** ** JavaScript values that cross the program's boundaries *)

(** [new Error(message)]; every failure the program sees carries a message. *)
Record JsError := Error { message : string }.

(** Values that are serialised by [res.json] or passed to / returned by a
    query.  Numbers are rationals (the finite doubles are among them). *)
Inductive Json :=
| JUndefined
| JNull
| JBool (b : bool)
| JNum (q : Q)
| JStr (s : string)
| JArr (items : list Json)
| JObj (fields : list (string * Json)).

(** [o.k] on a value: the first own field named [k], else [undefined]. *)
Fixpoint field_of (k : string) (fs : list (string * Json)) : Json :=
  match fs with
  | [] => JUndefined
  | (k', v) :: rest => if String.eqb k k' then v else field_of k rest
  end.

Definition get_field (k : string) (v : Json) : Json :=
  match v with
  | JObj fs => field_of k fs
  | _ => JUndefined
  end.

(** [a[0]] *)
Definition get_index0 (v : Json) : Json :=
  match v with
  | JArr (x :: _) => x
  | _ => JUndefined
  end.

(** [v === 0] *)
Definition strict_eq_zero (v : Json) : bool :=
  match v with
  | JNum q => Qeq_bool q 0
  | _ => false
  end.

(** What [JSON.stringify] keeps of a value: fields whose value is
    [undefined] are dropped from objects, [undefined] array items become
    [null]. *)
Fixpoint stringify (v : Json) : Json :=
  match v with
  | JObj fs =>
      JObj ((fix go (l : list (string * Json)) : list (string * Json) :=
               match l with
               | [] => []
               | (k, JUndefined) :: t => go t
               | (k, x) :: t => (k, stringify x) :: go t
               end) fs)
  | JArr xs =>
      JArr ((fix go (l : list Json) : list Json :=
               match l with
               | [] => []
               | JUndefined :: t => JNull :: go t
               | x :: t => stringify x :: go t
               end) xs)
  | _ => v
  end.

(** A string-valued property that may be [undefined]. *)
Definition of_opt (v : option string) : Json :=
  match v with
  | Some s => JStr s
  | None => JUndefined
  end.

(** ** The parameter store *)

(** One entry of [res.Parameters]. *)
Record SsmParameter := { Name : string; Value : option string }.

(** [s.split("/")]: never empty. *)
Fixpoint split_slash (s : string) : list string :=
  match s with
  | EmptyString => [EmptyString]
  | String c rest =>
      if Ascii.eqb c "/"%char then EmptyString :: split_slash rest
      else match split_slash rest with
           | h :: t => String c h :: t
           | [] => [String c EmptyString]
           end
  end.

(** [p.Name.split("/").pop()], used as a property key. *)
Definition param_key (p : SsmParameter) : string :=
  default "undefined" (last (split_slash (Name p))).

(** [params[k] = v] on a plain object whose values are strings or
    [undefined].  Assigning such a value to [__proto__] is ignored by the
    inherited setter; every other key becomes an own property. *)
Definition set_prop (params : gmap string (option string)) (k : string)
    (v : option string) : gmap string (option string) :=
  if decide (k = "__proto__") then params else <[k := v]> params.

(** [params.k]: [None] stands for [undefined] (no such property, or a
    property holding [undefined]). *)
Definition prop (params : gmap string (option string)) (k : string) : option string :=
  match params !! k with
  | Some v => v
  | None => None
  end.

(** [!v] is false exactly on non-empty strings. *)
Definition truthy (v : option string) : bool :=
  match v with
  | Some EmptyString => false
  | Some _ => true
  | None => false
  end.

(** The callback of the [forEach] of lines 31-33. *)
Definition store_param (params : gmap string (option string)) (p : SsmParameter)
  : gmap string (option string) :=
  set_prop params (param_key p) (Value p).

(** The [forEach] itself, starting from [{}]. *)
Definition collect_params (ps : list SsmParameter) : gmap string (option string) :=
  foldl store_param ∅ ps.

(** ** The MySQL driver *)

Record ConnectionOptions := {
  conn_host : option string;
  conn_user : option string;
  conn_password : option string
}.

(** The options handed to [mysql.createPool]; the pool handle is identified
    with them. *)
Record Pool := {
  pool_host : option string;
  pool_user : option string;
  pool_password : option string;
  pool_database : option string;
  connectionLimit : Z;
  ssl_rejectUnauthorized : bool
}.

(** ** Events and worlds *)

Inductive LogArg :=
| ArgStr (s : string)
| ArgErr (e : JsError).

Inductive Event :=
| EvSsmSend (names : list string) (withDecryption : bool)
            (r : JsError + list SsmParameter)
| EvCreateConnection (opts : ConnectionOptions) (r : option JsError)
| EvConnQuery (conn : nat) (sql : string) (r : option JsError)
| EvConnEnd (conn : nat) (r : option JsError)
| EvCreatePool (opts : Pool) (r : option JsError)
| EvPoolQuery (pool : Pool) (sql : string) (values : list Json)
              (r : JsError + Json)
| EvConsoleLog (args : list LogArg)
| EvConsoleError (args : list LogArg)
| EvSetTimeout (ms : Z)
| EvListen (port : Z)
| EvExit (code : Z).

(** The outside.  Each answer is a function of the history, so a world can
    fail the first calls and accept later ones, or answer differently each
    time.  For the calls that can fail, [None] / [inr] is success. *)
Record World := {
  ssm_send : list Event -> list string -> bool -> JsError + list SsmParameter;
  mysql_createConnection : list Event -> ConnectionOptions -> option JsError;
  conn_query : list Event -> nat -> string -> option JsError;
  conn_end : list Event -> nat -> option JsError;
  mysql_createPool : list Event -> Pool -> option JsError;
  pool_query : list Event -> Pool -> string -> list Json -> JsError + Json;
  process_env : string -> option string;
  process_uptime : list Event -> Q
}.

(** The process: what has happened so far, and the module variable [db]
    ([None] while it is [undefined]). *)
Record State := { events : list Event; db : option Pool }.

Definition initial : State := {| events := []; db := None |}.

(** ** The monad of the program: state, exceptions and process exit *)

Inductive Outcome (A : Type) :=
| Returned (a : A)
| Thrown (e : JsError)
| Exited (code : Z).
Arguments Returned {A} a.
Arguments Thrown {A} e.
Arguments Exited {A} code.

Definition M (A : Type) : Type := World -> State -> Outcome A * State.

Definition ret {A} (a : A) : M A := fun _ s => (Returned a, s).

Definition bind {A B} (m : M A) (k : A -> M B) : M B :=
  fun w s =>
    match m w s with
    | (Returned a, s') => k a w s'
    | (Thrown e, s') => (Thrown e, s')
    | (Exited c, s') => (Exited c, s')
    end.

Definition throw {A} (e : JsError) : M A := fun _ s => (Thrown e, s).

(** [try { m } catch (err) { handler err }]; a process exit is not caught. *)
Definition try_catch {A} (m : M A) (handler : JsError -> M A) : M A :=
  fun w s =>
    match m w s with
    | (Thrown e, s') => handler e w s'
    | r => r
    end.

Notation "x <- m ;; k" := (bind m (fun x => k))
  (at level 100, m at next level, right associativity).
Notation "m ;;; k" := (bind m (fun _ => k))
  (at level 100, right associativity).

Definition emit (e : Event) (s : State) : State :=
  {| events := events s ++ [e]; db := db s |}.

(** Lift an answer that is either an error or a value. *)
Definition settle {A} (r : JsError + A) (s : State) : Outcome A * State :=
  match r with
  | inl e => (Thrown e, s)
  | inr a => (Returned a, s)
  end.

Definition settle_unit (r : option JsError) (s : State) : Outcome unit * State :=
  match r with
  | Some e => (Thrown e, s)
  | None => (Returned tt, s)
  end.

(** *** Primitive calls *)

Definition ssm_send_command (names : list string) (dec : bool) : M (list SsmParameter) :=
  fun w s =>
    let r := ssm_send w (events s) names dec in
    settle r (emit (EvSsmSend names dec r) s).

(** A connection is named by the position of its creation in the history. *)
Definition createConnection (opts : ConnectionOptions) : M nat :=
  fun w s =>
    let r := mysql_createConnection w (events s) opts in
    let s' := emit (EvCreateConnection opts r) s in
    match r with
    | Some e => (Thrown e, s')
    | None => (Returned (length (events s)), s')
    end.

Definition connQuery (conn : nat) (sql : string) : M unit :=
  fun w s =>
    let r := conn_query w (events s) conn sql in
    settle_unit r (emit (EvConnQuery conn sql r) s).

Definition connEnd (conn : nat) : M unit :=
  fun w s =>
    let r := conn_end w (events s) conn in
    settle_unit r (emit (EvConnEnd conn r) s).

Definition createPool (opts : Pool) : M Pool :=
  fun w s =>
    let r := mysql_createPool w (events s) opts in
    let s' := emit (EvCreatePool opts r) s in
    match r with
    | Some e => (Thrown e, s')
    | None => (Returned opts, s')
    end.

Definition undefined_query : JsError :=
  Error "Cannot read properties of undefined (reading 'query')".

(** [db.query(sql, values)] resolved to its first component ([const [x] =
    await ...]).  On [undefined] the property access throws. *)
Definition query (handle : option Pool) (sql : string) (values : list Json) : M Json :=
  fun w s =>
    match handle with
    | None => (Thrown undefined_query, s)
    | Some p =>
        let r := pool_query w (events s) p sql values in
        settle r (emit (EvPoolQuery p sql values r) s)
    end.

Definition console_log (args : list LogArg) : M unit :=
  fun _ s => (Returned tt, emit (EvConsoleLog args) s).

Definition console_error (args : list LogArg) : M unit :=
  fun _ s => (Returned tt, emit (EvConsoleError args) s).

(** [await new Promise(r => setTimeout(r, delay))] *)
Definition sleep (ms : Z) : M unit :=
  fun _ s => (Returned tt, emit (EvSetTimeout ms) s).

Definition process_exit {A} (code : Z) : M A :=
  fun _ s => (Exited code, emit (EvExit code) s).

Definition read_db : M (option Pool) := fun _ s => (Returned (db s), s).

Definition write_db (v : option Pool) : M unit :=
  fun _ s => (Returned tt, {| events := events s; db := v |}).

Definition app_listen (port : Z) (callback : M unit) : M unit :=
  fun w s => callback w (emit (EvListen port) s).

(** ** FETCH DB CONFIG FROM SSM *)

Definition db_parameter_names : list string :=
  ["/myapp/db/host"; "/myapp/db/user"; "/myapp/db/password"; "/myapp/db/name"].

Definition missing_parameters : JsError := Error "Missing DB parameters in SSM".

Definition getDBConfig : M (gmap string (option string)) :=
  res <- ssm_send_command db_parameter_names true ;;
  let params := collect_params res in
  if negb (truthy (prop params "host")) || negb (truthy (prop params "user"))
     || negb (truthy (prop params "password")) || negb (truthy (prop params "name"))
  then throw missing_parameters
  else ret params.

(** ** CREATE DATABASE IF NOT EXISTS *)

(** A value interpolated into a template literal. *)
Definition interpolate (v : option string) : string :=
  match v with
  | Some s => s
  | None => "undefined"
  end.

Definition create_database_sql (config : gmap string (option string)) : string :=
  "CREATE DATABASE IF NOT EXISTS `" +:+ interpolate (prop config "name") +:+ "`".

Definition ensureDatabaseExists (config : gmap string (option string)) : M unit :=
  conn <- createConnection {| conn_host := prop config "host";
                              conn_user := prop config "user";
                              conn_password := prop config "password" |} ;;
  connQuery conn (create_database_sql config) ;;;
  connEnd conn ;;;
  console_log [ArgStr "✅ Database verified"].

(** ** CONNECT TO DB *)

(** How one turn of a loop body ends: by reaching its end, or by executing
    [return a]. *)
Inductive Step (A : Type) :=
| Continue
| Return (a : A).
Arguments Continue {A}.
Arguments Return {A} a.

(** [for (let i = ...) { body }] over the successive values of [i], followed
    by the end of the function: a run that leaves the loop without a
    [return] yields [undefined] ([None]). *)
Fixpoint for_each {A} (indices : list Z) (body : Z -> M (Step A)) : M (option A) :=
  match indices with
  | [] => ret None
  | i :: rest =>
      r <- body i ;;
      match r with
      | Return a => ret (Some a)
      | Continue => for_each rest body
      end
  end.

Definition pool_options (cfg : gmap string (option string)) : Pool :=
  {| pool_host := prop cfg "host";
     pool_user := prop cfg "user";
     pool_password := prop cfg "password";
     pool_database := prop cfg "name";
     connectionLimit := 10;
     ssl_rejectUnauthorized := false |}.

(** The [try] block of lines 60-75. *)
Definition attempt : M Pool :=
  cfg <- getDBConfig ;;
  ensureDatabaseExists cfg ;;;
  pool <- createPool (pool_options cfg) ;;
  console_log [ArgStr "✅ Connected to RDS"] ;;;
  ret pool.

Definition attempt_failed_line (i : Z) : string :=
  "❌ DB connection failed (attempt " +:+ pretty i +:+ ")".

(** The [catch] block of lines 76-80. *)
Definition on_failure (retries delay i : Z) (err : JsError) : M (Step Pool) :=
  console_error [ArgStr (attempt_failed_line i); ArgStr (message err)] ;;;
  if i =? retries then throw err
  else sleep delay ;;; ret Continue.

(** [i] runs over 1, 2, ..., [retries]: [seqZ 1 retries], empty when
    [retries <= 0]. *)
(** One turn of the loop: the [try] block ending in [return pool], and its
    [catch]. *)
Definition turn (retries delay i : Z) : M (Step Pool) :=
  try_catch (pool <- attempt ;; ret (Return pool)) (on_failure retries delay i).

Definition connectWithRetry (retries delay : Z) : M (option Pool) :=
  for_each (seqZ 1 retries) (turn retries delay).

Definition default_retries : Z := 10.
Definition default_delay : Z := 3000.

(** ** TABLE CREATION *)

Definition create_student_sql : string :=
  "CREATE TABLE IF NOT EXISTS student (id INT AUTO_INCREMENT PRIMARY KEY, name VARCHAR(255), roll_number VARCHAR(255), class VARCHAR(255), created_at TIMESTAMP DEFAULT CURRENT_TIMESTAMP)".

Definition create_teacher_sql : string :=
  "CREATE TABLE IF NOT EXISTS teacher (id INT AUTO_INCREMENT PRIMARY KEY, name VARCHAR(255), subject VARCHAR(255), class VARCHAR(255), created_at TIMESTAMP DEFAULT CURRENT_TIMESTAMP)".

Definition ensureTables (handle : option Pool) : M unit :=
  query handle create_student_sql [] ;;;
  query handle create_teacher_sql [] ;;;
  console_log [ArgStr "✅ Tables ready"].

(** ** Responses *)

Record Response := { status : Z; body : Json }.

(** [res.status(code).json(v)]; [res.json(v)] is the same with code 200. *)
Definition res_json (code : Z) (v : Json) : Response :=
  {| status := code; body := stringify v |}.

Definition cannot_read (k : string) : JsError :=
  Error ("Cannot read properties of undefined (reading '" +:+ k +:+ "')").

(** [v.k] as a statement that can throw: reading a property of [undefined]
    or [null] raises a TypeError. *)
Definition member (k : string) (v : Json) : M Json :=
  match v with
  | JUndefined | JNull => throw (cannot_read k)
  | _ => ret (get_field k v)
  end.

(** [v[0]], likewise. *)
Definition first_item (v : Json) : M Json :=
  match v with
  | JUndefined | JNull => throw (cannot_read "0")
  | _ => ret (get_index0 v)
  end.

(** ** Health Check Routes *)

Definition get_health : M Response :=
  fun w s =>
    (Returned (res_json 200 (JObj [("status", JStr "ok");
                                   ("service", JStr "backend");
                                   ("uptime", JNum (process_uptime w (events s)))])),
     s).

Definition getenv (k : string) : M Json :=
  fun w s => (Returned (of_opt (process_env w k)), s).

Definition get_health_db : M Response :=
  try_catch
    (handle <- read_db ;;
     rows <- query handle "SELECT 1 as db_up" [] ;;
     env_host <- getenv "host" ;;
     env_database <- getenv "database" ;;
     row <- first_item rows ;;
     ret (res_json 200 (JObj [("status", JStr "ok");
                              ("database", JStr "connected");
                              ("host", env_host);
                              ("database_name", env_database);
                              ("result", row)])))
    (fun error =>
       console_error [ArgStr "DB health check failed:"; ArgStr (message error)] ;;;
       ret (res_json 500 (JObj [("status", JStr "error");
                                ("database", JStr "down");
                                ("error", JStr (message error))]))).

(** ** ROUTES *)

Definition get_root : M Response :=
  handle <- read_db ;;
  rows <- query handle "SELECT * FROM student" [] ;;
  ret (res_json 200 (JObj [("message", JStr "Backend running 🚀"); ("data", rows)])).

Definition get_student : M Response :=
  handle <- read_db ;;
  rows <- query handle "SELECT * FROM student" [] ;;
  ret (res_json 200 rows).

Definition get_teacher : M Response :=
  handle <- read_db ;;
  rows <- query handle "SELECT * FROM teacher" [] ;;
  ret (res_json 200 rows).

Definition post_addstudent (req_body : Json) : M Response :=
  name <- member "name" req_body ;;
  rollNo <- member "rollNo" req_body ;;
  cls <- member "class" req_body ;;
  handle <- read_db ;;
  query handle "INSERT INTO student (name, roll_number, class) VALUES (?, ?, ?)"
        [name; rollNo; cls] ;;;
  ret (res_json 200 (JObj [("message", JStr "Student added")])).

Definition post_addteacher (req_body : Json) : M Response :=
  name <- member "name" req_body ;;
  subject <- member "subject" req_body ;;
  cls <- member "class" req_body ;;
  handle <- read_db ;;
  query handle "INSERT INTO teacher (name, subject, class) VALUES (?, ?, ?)"
        [name; subject; cls] ;;;
  ret (res_json 200 (JObj [("message", JStr "Teacher added")])).

Definition delete_student (id : string) : M Response :=
  try_catch
    (handle <- read_db ;;
     result <- query handle "DELETE FROM student WHERE id = ?" [JStr id] ;;
     affectedRows <- member "affectedRows" result ;;
     if strict_eq_zero affectedRows
     then ret (res_json 404 (JObj [("message", JStr "Student not found")]))
     else ret (res_json 200 (JObj [("message", JStr "Student deleted successfully")])))
    (fun err =>
       console_error [ArgStr "Delete student error:"; ArgErr err] ;;;
       ret (res_json 500 (JObj [("error", JStr "Failed to delete student")]))).

Definition delete_teacher (id : string) : M Response :=
  try_catch
    (handle <- read_db ;;
     result <- query handle "DELETE FROM teacher WHERE id = ?" [JStr id] ;;
     affectedRows <- member "affectedRows" result ;;
     if strict_eq_zero affectedRows
     then ret (res_json 404 (JObj [("message", JStr "Teacher not found")]))
     else ret (res_json 200 (JObj [("message", JStr "Teacher deleted successfully")])))
    (fun err =>
       console_error [ArgStr "Delete teacher error:"; ArgErr err] ;;;
       ret (res_json 500 (JObj [("error", JStr "Failed to delete teacher")]))).

(** The routes registered on [app], with the path parameter and the parsed
    body a matching request carries. *)
Inductive Request :=
| GET_health
| GET_health_db
| GET_root
| GET_student
| GET_teacher
| POST_addstudent (req_body : Json)
| POST_addteacher (req_body : Json)
| DELETE_student (id : string)
| DELETE_teacher (id : string).

Definition route (req : Request) : M Response :=
  match req with
  | GET_health => get_health
  | GET_health_db => get_health_db
  | GET_root => get_root
  | GET_student => get_student
  | GET_teacher => get_teacher
  | POST_addstudent b => post_addstudent b
  | POST_addteacher b => post_addteacher b
  | DELETE_student id => delete_student id
  | DELETE_teacher id => delete_teacher id
  end.

(** ** START SERVER *)

Definition PORT : Z := 3500.

Definition main : M unit :=
  try_catch
    (pool <- connectWithRetry default_retries default_delay ;;
     write_db pool ;;;
     handle <- read_db ;;
     ensureTables handle ;;;
     app_listen PORT
       (console_log [ArgStr ("🚀 Server running on port " +:+ pretty PORT)]))
    (fun err =>
       console_error [ArgStr "❌ App failed to start:"; ArgErr err] ;;;
       process_exit 1).

(** ** The process seen from the network *)

Definition is_listen (e : Event) : bool :=
  match e with EvListen _ => true | _ => false end.

Definition is_exit (e : Event) : bool :=
  match e with EvExit _ => true | _ => false end.

Definition is_ssm_send (e : Event) : bool :=
  match e with EvSsmSend _ _ _ => true | _ => false end.

(** The process accepts connections once [app.listen] has been called and
    for as long as it has not exited. *)
Definition serving (history : list Event) : bool :=
  existsb is_listen history && negb (existsb is_exit history).

(** A request sent to the process: it reaches its route only while the
    process is serving; otherwise nobody answers ([None]). *)
Definition serve (req : Request) (w : World) (s : State)
  : option (Outcome Response * State) :=
  if serving (events s) then Some (route req w s) else None.

(** The pools that exist after a history: one per successful
    [mysql.createPool]. *)
Definition pools (history : list Event) : list Pool :=
  omap (fun e => match e with EvCreatePool p None => Some p | _ => None end) history.

(** The delays waited, in order. *)
Definition delays (history : list Event) : list Z :=
  omap (fun e => match e with EvSetTimeout ms => Some ms | _ => None end) history.

(** Both "create table if not exists" statements have succeeded on [p]. *)
Definition tables_ready (p : Pool) (history : list Event) : Prop :=
  (exists r, EvPoolQuery p create_student_sql [] (inr r) ∈ history) /\
  (exists r, EvPoolQuery p create_teacher_sql [] (inr r) ∈ history).


(** ** Vocabulary of the properties *)

Definition required_keys : list string := ["host"; "user"; "password"; "name"].

(** A response lacks [k] when no parameter is stored under [k], or when the
    last one stored under it has no value or the empty string. *)
Definition lacks (ps : list SsmParameter) (k : string) : Prop :=
  (forall p, p ∈ ps -> param_key p <> k) \/
  (exists ps1 p ps2, ps = ps1 ++ p :: ps2 /\ param_key p = k /\
     (forall q, q ∈ ps2 -> param_key q <> k) /\
     (Value p = None \/ Value p = Some EmptyString)).

(** [s] after the events [evs]. *)
Definition grow (s : State) (evs : list Event) : State :=
  {| events := events s ++ evs; db := db s |}.

(** The events a run of [m] adds to the history of [s]. *)
Definition emitted {A} (m : M A) (w : World) (s : State) : list Event :=
  drop (length (events s)) (events (m w s).2).

(** The record that [connectWithRetry] leaves of a failed attempt. *)
Definition attempt_failed (i : Z) (msg : string) : Event :=
  EvConsoleError [ArgStr (attempt_failed_line i); ArgStr msg].

(** The number of attempts started: each one begins by asking the parameter
    store. *)
Definition attempts (history : list Event) : nat :=
  length (filter (fun e => is_ssm_send e = true) history).

(** Events that occur inside one attempt, after its request to the
    parameter store. *)
Definition inner_event (e : Event) : bool :=
  match e with
  | EvCreateConnection _ _ | EvConnQuery _ _ _ | EvConnEnd _ _
  | EvCreatePool _ _ | EvConsoleLog _ => true
  | _ => false
  end.

(** The events of one attempt: a request to the parameter store, then only
    driver calls and log lines. *)
Definition attempt_events (evs : list Event) : Prop :=
  exists answer tail,
    evs = EvSsmSend db_parameter_names true answer :: tail /\
    Forall (fun e => inner_event e = true) tail.

(** The pool [p] is made of the parameters answered at the start of [evs]. *)
Definition fetched_by (evs : list Event) (p : Pool) : Prop :=
  exists ps tail,
    evs = EvSsmSend db_parameter_names true (inr ps) :: tail /\
    p = pool_options (collect_params ps).

(** The histories [connectWithRetry] can produce from turn [i] on, with the
    way it ends. *)
Inductive loop_trace (retries delay : Z) : Z -> list Event -> Outcome (option Pool) -> Prop :=
| loop_over i :
    retries < i ->
    loop_trace retries delay i [] (Returned None)
| loop_success i evs p :
    i <= retries -> attempt_events evs -> pools evs = [p] -> fetched_by evs p ->
    loop_trace retries delay i evs (Returned (Some p))
| loop_give_up evs e :
    attempt_events evs -> pools evs = [] ->
    loop_trace retries delay retries
      (evs ++ [attempt_failed retries (message e)]) (Thrown e)
| loop_retry i evs e rest r :
    i < retries -> attempt_events evs -> pools evs = [] ->
    loop_trace retries delay (i + 1) rest r ->
    loop_trace retries delay i
      (evs ++ attempt_failed i (message e) :: EvSetTimeout delay :: rest) r.

(** The record the entry point leaves of a failed startup. *)
Definition app_failed (e : JsError) : Event :=
  EvConsoleError [ArgStr "❌ App failed to start:"; ArgErr e].

Definition server_running : Event :=
  EvConsoleLog [ArgStr ("🚀 Server running on port " +:+ pretty PORT)].

(** The queries of a table initialisation that fails with [e] on [p]. *)
Inductive tables_failure (p : Pool) (e : JsError) : list Event -> Prop :=
| student_failure :
    tables_failure p e [EvPoolQuery p create_student_sql [] (inl e)]
| teacher_failure a :
    tables_failure p e [EvPoolQuery p create_student_sql [] (inr a);
                        EvPoolQuery p create_teacher_sql [] (inl e)].

(** The three ways the entry point can end, from a fresh process. *)
Inductive startup : Outcome unit -> State -> Prop :=
| startup_serving evs p a1 a2 :
    loop_trace default_retries default_delay 1 evs (Returned (Some p)) ->
    startup (Returned tt)
      {| events := evs ++ [EvPoolQuery p create_student_sql [] (inr a1);
                           EvPoolQuery p create_teacher_sql [] (inr a2);
                           EvConsoleLog [ArgStr "✅ Tables ready"];
                           EvListen PORT; server_running];
         db := Some p |}
| startup_no_pool evs e :
    loop_trace default_retries default_delay 1 evs (Thrown e) ->
    startup (Exited 1)
      {| events := evs ++ [app_failed e; EvExit 1]; db := None |}
| startup_no_tables evs p qs e :
    loop_trace default_retries default_delay 1 evs (Returned (Some p)) ->
    tables_failure p e qs ->
    startup (Exited 1)
      {| events := evs ++ qs ++ [app_failed e; EvExit 1]; db := Some p |}.

Definition pool_or_error (r : Outcome (option Pool)) : Prop :=
  (exists p, r = Returned (Some p)) \/ (exists e, r = Thrown e).

(** ** Worlds used as examples *)

Definition sample_parameters (name : string) : list SsmParameter :=
  [ {| Name := "/myapp/db/host"; Value := Some "h" |};
    {| Name := "/myapp/db/user"; Value := Some "u" |};
    {| Name := "/myapp/db/password"; Value := Some "p" |};
    {| Name := "/myapp/db/name"; Value := Some name |} ].

Definition sample_config : gmap string (option string) :=
  collect_params (sample_parameters "school").

Definition sample_pool : Pool := pool_options sample_config.

(** Everything works, the tables are empty, no environment variable is
    set. *)
Definition calm : World :=
  {| ssm_send := fun _ _ _ => inr (sample_parameters "school");
     mysql_createConnection := fun _ _ => None;
     conn_query := fun _ _ _ => None;
     conn_end := fun _ _ => None;
     mysql_createPool := fun _ _ => None;
     pool_query := fun _ _ _ _ => inr (JArr []);
     process_env := fun _ => None;
     process_uptime := fun _ => 12 # 1 |}.

(** The parameter store holds an empty database name. *)
Definition empty_name : World :=
  {| ssm_send := fun _ _ _ => inr (sample_parameters EmptyString);
     mysql_createConnection := mysql_createConnection calm;
     conn_query := conn_query calm;
     conn_end := conn_end calm;
     mysql_createPool := mysql_createPool calm;
     pool_query := pool_query calm;
     process_env := process_env calm;
     process_uptime := process_uptime calm |}.

(** The server accepts the bootstrap connection and rejects the statement. *)
Definition statement_denied : World :=
  {| ssm_send := ssm_send calm;
     mysql_createConnection := mysql_createConnection calm;
     conn_query := fun _ _ _ => Some (Error "ER_DBACCESS_DENIED_ERROR");
     conn_end := conn_end calm;
     mysql_createPool := mysql_createPool calm;
     pool_query := pool_query calm;
     process_env := process_env calm;
     process_uptime := process_uptime calm |}.

(** The database refuses connections until three delays have been waited,
    and the parameter store names the database "school" only from then
    on. *)
Definition slow_database : World :=
  {| ssm_send := fun history _ _ =>
       inr (sample_parameters
              (if (length (delays history) <? 3)%nat then "provisioning" else "school"));
     mysql_createConnection := fun history _ =>
       if (length (delays history) <? 3)%nat then Some (Error "ECONNREFUSED") else None;
     conn_query := conn_query calm;
     conn_end := conn_end calm;
     mysql_createPool := mysql_createPool calm;
     pool_query := pool_query calm;
     process_env := process_env calm;
     process_uptime := process_uptime calm |}.

(** The database never comes up. *)
Definition no_database : World :=
  {| ssm_send := ssm_send calm;
     mysql_createConnection := fun _ _ => Some (Error "ECONNREFUSED");
     conn_query := conn_query calm;
     conn_end := conn_end calm;
     mysql_createPool := mysql_createPool calm;
     pool_query := pool_query calm;
     process_env := process_env calm;
     process_uptime := process_uptime calm |}.

(** Every query on the pool gets the answer [r]. *)
Definition answering (r : JsError + Json) : World :=
  {| ssm_send := ssm_send calm;
     mysql_createConnection := mysql_createConnection calm;
     conn_query := conn_query calm;
     conn_end := conn_end calm;
     mysql_createPool := mysql_createPool calm;
     pool_query := fun _ _ _ _ => r;
     process_env := process_env calm;
     process_uptime := process_uptime calm |}.

(** The probe succeeds, and the environment variable [host] is set. *)
Definition hosted : World :=
  {| ssm_send := ssm_send calm;
     mysql_createConnection := mysql_createConnection calm;
     conn_query := conn_query calm;
     conn_end := conn_end calm;
     mysql_createPool := mysql_createPool calm;
     pool_query := fun _ _ _ _ => inr (JArr [JObj [("db_up", JNum 1)]]);
     process_env := fun k => if String.eqb k "host" then Some "db.internal" else None;
     process_uptime := process_uptime calm |}.

(** A started server: it listens and [db] holds the pool. *)
Definition started : State :=
  {| events := [EvCreatePool sample_pool None; EvListen PORT]; db := Some sample_pool |}.

(** The fields that the environment adds to the answer of [/health/db]. *)
Definition env_fields (w : World) : list (string * Json) :=
  match process_env w "host" with
  | Some h => [("host", JStr h)]
  | None => []
  end ++
  match process_env w "database" with
  | Some d => [("database_name", JStr d)]
  | None => []
  end.

Definition delete_student_sql : string := "DELETE FROM student WHERE id = ?".
Definition delete_teacher_sql : string := "DELETE FROM teacher WHERE id = ?".
Definition select_students_sql : string := "SELECT * FROM student".
Definition probe_sql : string := "SELECT 1 as db_up".

(** An answer whose body has the single field [k], with the text [v]. *)
Definition answer (code : Z) (k v : string) : Outcome Response :=
  Returned {| status := code; body := JObj [(k, JStr v)] |}.

(** The statement reports [n] affected rows. *)
Definition affected (n : Z) : JsError + Json :=
  inr (JObj [("fieldCount", JNum 0); ("affectedRows", JNum (inject_Z n));
             ("insertId", JNum 0)]).

(** The body the specification gives for a successful [/health/db]. *)
Definition bare_health_db : Response :=
  {| status := 200;
     body := JObj [("status", JStr "ok"); ("database", JStr "connected");
                   ("result", JObj [("db_up", JNum 1)])] |}.

(** ** Vocabulary of the further properties *)

(** Whether a string contains a slash. *)
Fixpoint has_slash (s : string) : bool :=
  match s with
  | EmptyString => false
  | String c rest => Ascii.eqb c "/"%char || has_slash rest
  end.

(** A property that holds a non-empty string. *)
Definition filled (v : option string) : Prop :=
  exists text, v = Some text /\ text <> EmptyString.

Definition select_teachers_sql : string := "SELECT * FROM teacher".
Definition insert_student_sql : string :=
  "INSERT INTO student (name, roll_number, class) VALUES (?, ?, ?)".
Definition insert_teacher_sql : string :=
  "INSERT INTO teacher (name, subject, class) VALUES (?, ?, ?)".

(** The events a route can add to the history: statements on the pool and
    lines on the error console. *)
Definition request_event (e : Event) : bool :=
  match e with
  | EvPoolQuery _ _ _ _ | EvConsoleError _ => true
  | _ => false
  end.

(** The statements sent to the pool, in order. *)
Definition statements (history : list Event) : list string :=
  omap (fun e => match e with EvPoolQuery _ sql _ _ => Some sql | _ => None end) history.

(** [m] only adds request events, among them at most [n] statements, leaves
    [db] alone and does not end the process. *)
Definition quiet {A} (n : nat) (m : M A) : Prop :=
  forall w s, exists evs,
    (m w s).2 = grow s evs /\
    Forall (fun e => request_event e = true) evs /\
    (length (statements evs) <= n)%nat /\
    forall code, (m w s).1 <> Exited code.

(** The server answers every probe with the one row [{db_up: 1}] and every
    other statement with two affected rows; the parameter store lists the
    four parameters in reverse order. *)
Definition reversed : World :=
  {| ssm_send := fun _ _ _ => inr (reverse (sample_parameters "school"));
     mysql_createConnection := mysql_createConnection calm;
     conn_query := conn_query calm;
     conn_end := conn_end calm;
     mysql_createPool := mysql_createPool calm;
     pool_query := pool_query calm;
     process_env := process_env calm;
     process_uptime := process_uptime calm |}.

(** The parameter store is unreachable. *)
Definition no_store : World :=
  {| ssm_send := fun _ _ _ => inl (Error "ENOTFOUND");
     mysql_createConnection := mysql_createConnection calm;
     conn_query := conn_query calm;
     conn_end := conn_end calm;
     mysql_createPool := mysql_createPool calm;
     pool_query := pool_query calm;
     process_env := process_env calm;
     process_uptime := process_uptime calm |}.

(** The pool accepts the student table and rejects the teacher table. *)
Definition no_teacher_table : World :=
  {| ssm_send := ssm_send calm;
     mysql_createConnection := mysql_createConnection calm;
     conn_query := conn_query calm;
     conn_end := conn_end calm;
     mysql_createPool := mysql_createPool calm;
     pool_query := fun _ _ sql _ =>
       if String.eqb sql create_teacher_sql then inl (Error "ER_TABLEACCESS_DENIED_ERROR")
       else inr (JArr []);
     process_env := process_env calm;
     process_uptime := process_uptime calm |}.

(** A server that listens although [db] was never assigned. *)
Definition unassigned : State :=
  {| events := [EvListen PORT]; db := None |}.

(** A student table with two rows, as the driver returns them. *)
Definition two_students : Json :=
  JArr [JObj [("id", JNum 1); ("name", JStr "Alice"); ("roll_number", JStr "A1");
              ("class", JStr "5A"); ("created_at", JStr "2024-01-01T00:00:00.000Z")];
        JObj [("id", JNum 2); ("name", JStr "Bob"); ("roll_number", JNull);
              ("class", JStr "5B"); ("created_at", JStr "2024-01-02T00:00:00.000Z")]].

(** The parameters under one of the four required keys, in the order of the
    answer. *)
Definition required_only (ps : list SsmParameter) : list SsmParameter :=
  filter (fun p => param_key p ∈ required_keys) ps.

(** An answer of the parameter store with parameters under other keys before,
    between and after the four required ones. *)
Definition crowded_parameters : list SsmParameter :=
  [ {| Name := "/myapp/db/port"; Value := Some "3306" |};
    {| Name := "/myapp/db/host"; Value := Some "h" |};
    {| Name := "/myapp/cache/ttl"; Value := None |};
    {| Name := "/myapp/db/user"; Value := Some "u" |};
    {| Name := "/myapp/db/password"; Value := Some "p" |};
    {| Name := "/myapp/db/engine"; Value := Some "mysql" |};
    {| Name := "/myapp/db/name"; Value := Some "school" |};
    {| Name := "/myapp/db/charset"; Value := Some "utf8mb4" |} ].

(** * Properties *)

(** ** The Parameter Fetcher *)

Section Fetcher.

Implicit Types (ps : list SsmParameter) (k : string)
  (params : gmap string (option string)).

Lemma required_not_proto k : k ∈ required_keys -> k <> "__proto__".
Proof.
  unfold required_keys. rewrite !elem_of_cons, elem_of_nil.
  intros [-> | [-> | [-> | [-> | []]]]]; discriminate.
Qed.

Lemma set_prop_other params k k' v : k' <> k -> set_prop params k' v !! k = params !! k.
Proof.
  intros Hne. unfold set_prop. case_decide; [done |].
  by rewrite lookup_insert_ne.
Qed.

Lemma set_prop_same params k v : k <> "__proto__" -> set_prop params k v !! k = Some v.
Proof.
  intros Hne. unfold set_prop. case_decide; [done |].
  by rewrite lookup_insert_eq.
Qed.

(** Parameters stored under other keys leave the property [k] alone. *)
Lemma foldl_store_other ps k params :
  (forall p, p ∈ ps -> param_key p <> k) ->
  foldl store_param params ps !! k = params !! k.
Proof.
  revert params. induction ps as [| p ps IH]; intros params Hall; [done |].
  cbn [foldl]. rewrite IH.
  - apply set_prop_other, Hall. left.
  - intros q Hq. apply Hall. by right.
Qed.

Lemma collect_params_absent ps k :
  (forall p, p ∈ ps -> param_key p <> k) -> prop (collect_params ps) k = None.
Proof.
  intros Hall. unfold prop, collect_params.
  by rewrite foldl_store_other, lookup_empty.
Qed.

(** The last parameter stored under [k] decides the property. *)
Lemma collect_params_last ps1 p ps2 k :
  k <> "__proto__" -> param_key p = k ->
  (forall q, q ∈ ps2 -> param_key q <> k) ->
  prop (collect_params (ps1 ++ p :: ps2)) k = Value p.
Proof.
  intros Hproto Hk Hall. unfold prop, collect_params.
  rewrite foldl_app. cbn [foldl]. rewrite foldl_store_other by done.
  unfold store_param at 1. rewrite Hk. by rewrite set_prop_same.
Qed.

(** The check of line 35 fails as soon as one required property is falsy. *)
Lemma check_fails params k :
  k ∈ required_keys -> truthy (prop params k) = false ->
  negb (truthy (prop params "host")) || negb (truthy (prop params "user"))
  || negb (truthy (prop params "password")) || negb (truthy (prop params "name")) = true.
Proof.
  unfold required_keys. rewrite !elem_of_cons, elem_of_nil.
  intros [-> | [-> | [-> | [-> | []]]]] ->; cbn;
    repeat (rewrite ?orb_true_r, ?orb_true_l); reflexivity.
Qed.

Lemma getDBConfig_unfold w s :
  getDBConfig w s =
  let r := ssm_send w (events s) db_parameter_names true in
  let s' := emit (EvSsmSend db_parameter_names true r) s in
  match r with
  | inl e => (Thrown e, s')
  | inr ps =>
      let params := collect_params ps in
      if negb (truthy (prop params "host")) || negb (truthy (prop params "user"))
         || negb (truthy (prop params "password")) || negb (truthy (prop params "name"))
      then (Thrown missing_parameters, s')
      else (Returned params, s')
  end.
Proof.
  unfold getDBConfig, bind, ssm_send_command, settle. cbn zeta.
  destruct (ssm_send w (events s) db_parameter_names true) as [e | ps]; [done |].
  by destruct (_ || _).
Qed.

Lemma lacks_falsy ps k :
  k ∈ required_keys -> lacks ps k -> truthy (prop (collect_params ps) k) = false.
Proof.
  intros Hk [Habs | (ps1 & p & ps2 & -> & Hp & Hlast & Hval)].
  - by rewrite collect_params_absent.
  - rewrite collect_params_last by auto using required_not_proto.
    by destruct Hval as [-> | ->].
Qed.

End Fetcher.

Example param_key_of_host :
  param_key {| Name := "/myapp/db/host"; Value := Some "h" |} = "host".
Proof. reflexivity. Qed.

Example param_key_without_slash :
  param_key {| Name := "name"; Value := None |} = "name".
Proof. reflexivity. Qed.

(** A complete response is returned as the configuration. *)
Example getDBConfig_complete :
  (getDBConfig calm initial).1 = Returned sample_config.
Proof. reflexivity. Qed.

(** C4.  Whenever the parameter store answers with a response that lacks one
  of the four required values (host, user, password, name) - the value is
  absent, or it is the empty string - [getDBConfig] throws its "Missing DB
  parameters in SSM" error (the fetcher's configuration error) and returns
  no configuration. *)
Theorem getDBConfig_missing_value_throws (w : World) (s : State)
  (ps : list SsmParameter) (k : string) :
k ∈ required_keys ->
ssm_send w (events s) db_parameter_names true = inr ps ->
lacks ps k ->
getDBConfig w s =
  (Thrown missing_parameters, emit (EvSsmSend db_parameter_names true (inr ps)) s).
Proof.
intros Hk Hsend Hlack.
rewrite getDBConfig_unfold. cbn zeta. rewrite Hsend.
by rewrite (check_fails _ k Hk (lacks_falsy ps k Hk Hlack)).
Qed.

Lemma getDBConfig_missing_value_throws_witness :
  getDBConfig empty_name initial =
    (Thrown missing_parameters,
     emit (EvSsmSend db_parameter_names true (inr (sample_parameters EmptyString))) initial).
Proof.
  apply (getDBConfig_missing_value_throws empty_name initial (sample_parameters EmptyString) "name").
  - unfold required_keys. rewrite !elem_of_cons. tauto.
  - reflexivity.
  - right.
    exists [ {| Name := "/myapp/db/host"; Value := Some "h" |};
             {| Name := "/myapp/db/user"; Value := Some "u" |};
             {| Name := "/myapp/db/password"; Value := Some "p" |} ],
           {| Name := "/myapp/db/name"; Value := Some EmptyString |}, [].
    split; [reflexivity |]. split; [reflexivity |].
    split; [| by right].
    intros q Hq. by apply elem_of_nil in Hq.
Defined.

(** ** Histories only grow *)

Lemma emit_grow e s : emit e s = grow s [e].
Proof. reflexivity. Qed.

Lemma grow_grow s evs1 evs2 : grow (grow s evs1) evs2 = grow s (evs1 ++ evs2).
Proof. unfold grow. cbn. by rewrite app_assoc. Qed.

Lemma grow_nil s : grow s [] = s.
Proof. destruct s. unfold grow. cbn. by rewrite app_nil_r. Qed.

Lemma emitted_grow {A} (m : M A) w s evs :
  (m w s).2 = grow s evs -> emitted m w s = evs.
Proof.
  intros H. unfold emitted. rewrite H. cbn. by rewrite drop_app_length.
Qed.

Lemma pools_app evs1 evs2 : pools (evs1 ++ evs2) = pools evs1 ++ pools evs2.
Proof. apply omap_app. Qed.

Lemma delays_app evs1 evs2 : delays (evs1 ++ evs2) = delays evs1 ++ delays evs2.
Proof. apply omap_app. Qed.

Lemma attempts_app evs1 evs2 : attempts (evs1 ++ evs2) = (attempts evs1 + attempts evs2)%nat.
Proof. unfold attempts. by rewrite filter_app, length_app. Qed.

(** ** One attempt *)

Ltac run_to_grow := rewrite ?emit_grow, ?grow_grow; cbn [app].

(** An attempt asks the parameter store first, then only calls the driver
    and logs; it creates a pool exactly when it succeeds, and never ends the
    process. *)
Lemma attempt_run w s :
  exists evs,
    (attempt w s).2 = grow s evs /\ attempt_events evs /\
    match (attempt w s).1 with
    | Returned p => pools evs = [p] /\ fetched_by evs p
    | Thrown _ => pools evs = []
    | Exited _ => False
    end.
Proof.
  unfold attempt, ensureDatabaseExists, bind.
  rewrite getDBConfig_unfold. cbn zeta.
  unfold createPool, createConnection, connQuery, connEnd, console_log, ret,
    settle_unit.
  repeat case_match; simplify_eq; cbn [fst snd]; run_to_grow.
  all: eexists; split; [reflexivity |].
  all: split; [eexists _, _; split; [reflexivity |] |
               cbn in *; simplify_eq;
               first [done | split; [done |]; by eexists _, _]].
  all: repeat (apply List.Forall_cons; [reflexivity |]); apply List.Forall_nil.
Qed.

Lemma turn_run w retries delay i s :
  turn retries delay i w s =
  match attempt w s with
  | (Returned p, s1) => (Returned (Return p), s1)
  | (Thrown e, s1) =>
      let s2 := emit (attempt_failed i (message e)) s1 in
      if i =? retries then (Thrown e, s2)
      else (Returned Continue, emit (EvSetTimeout delay) s2)
  | (Exited c, s1) => (Exited c, s1)
  end.
Proof.
  unfold turn, try_catch, bind, on_failure, console_error, sleep, ret, throw.
  destruct (attempt w s) as [[p | e | c] s1]; cbn; [done | | done].
  by destruct (i =? retries).
Qed.

(** ** The retry loop *)

(** Every run of the loop over [i, i+1, ..., retries] follows [loop_trace]. *)
Lemma for_each_turn_run w retries delay n :
  forall i s,
    i + Z.of_nat n = retries + 1 ->
    exists evs,
      (for_each (seqZ i (Z.of_nat n)) (turn retries delay) w s).2 = grow s evs /\
      loop_trace retries delay i evs
        (for_each (seqZ i (Z.of_nat n)) (turn retries delay) w s).1.
Proof.
  induction n as [| n IH]; intros i s Hi.
  - exists []. cbn. rewrite grow_nil. split; [done |]. constructor. lia.
  - rewrite seqZ_cons by lia.
    replace (Z.pred (Z.of_nat (S n))) with (Z.of_nat n) by lia.
    cbn [for_each]. unfold bind, ret. rewrite !turn_run.
    destruct (attempt_run w s) as (evs & Hs & Hev & Hout).
    destruct (attempt w s) as [[p | e | c] s1]; cbn [fst snd] in *; [ | | done].
    + exists evs. split; [done |]. destruct Hout. by apply loop_success; [lia | ..].
    + cbn zeta. destruct (Z.eqb_spec i retries) as [-> | Hne].
      * exists (evs ++ [attempt_failed retries (message e)]). cbn [fst snd].
        split; [by rewrite Hs, emit_grow, grow_grow |].
        by apply loop_give_up.
      * destruct (IH (Z.succ i)
                    (emit (EvSetTimeout delay) (emit (attempt_failed i (message e)) s1)))
          as (rest & Hrest & Htrace); [lia |].
        exists (evs ++ attempt_failed i (message e) :: EvSetTimeout delay :: rest).
        rewrite Hrest. split.
        -- by rewrite Hs, !emit_grow, !grow_grow.
        -- apply loop_retry; [lia | done | done | exact Htrace].
Qed.

Lemma connectWithRetry_run w s retries delay :
  exists evs,
    (connectWithRetry retries delay w s).2 = grow s evs /\
    loop_trace retries delay 1 evs (connectWithRetry retries delay w s).1.
Proof.
  unfold connectWithRetry.
  destruct (Z.le_gt_cases 0 retries) as [Hpos | Hneg].
  - destruct (for_each_turn_run w retries delay (Z.to_nat retries) 1 s)
      as (evs & Hs & Htrace); [lia |].
    rewrite Z2Nat.id in Hs, Htrace by done. by exists evs.
  - exists []. unfold seqZ. rewrite Z2Nat.nonpos by lia. cbn.
    rewrite grow_nil. split; [done |]. constructor. lia.
Qed.

(** *** What the histories of the loop look like *)

Lemma attempt_events_no_record evs i msg :
  attempt_events evs -> attempt_failed i msg ∉ evs.
Proof.
  intros (answer & tail & -> & Hin) Hel.
  apply elem_of_cons in Hel as [Heq | Hel]; [discriminate |].
  rewrite Forall_forall in Hin. by apply Hin in Hel.
Qed.

Lemma attempt_events_delays evs : attempt_events evs -> delays evs = [].
Proof.
  intros (answer & tail & -> & Hin). unfold delays. cbn.
  induction Hin as [| e tail He _ IH]; [done |].
  cbn. rewrite IH. by destruct e.
Qed.

Lemma attempt_events_attempts evs : attempt_events evs -> attempts evs = 1%nat.
Proof.
  intros (answer & tail & -> & Hin). unfold attempts.
  rewrite filter_cons_True by done. cbn. f_equal.
  induction Hin as [| e tail He _ IH]; [done |].
  rewrite filter_cons_False; [done |]. by destruct e.
Qed.

Lemma attempt_events_quiet evs :
  attempt_events evs -> existsb is_listen evs = false /\ existsb is_exit evs = false.
Proof.
  intros (answer & tail & -> & Hin). cbn.
  induction Hin as [| e tail He _ [IH1 IH2]]; [done |].
  cbn. rewrite IH1, IH2. by destruct e.
Qed.

Lemma cons_inv {A} (a b : A) (l l' : list A) : a :: l = b :: l' -> a = b /\ l = l'.
Proof. intros H. by injection H. Qed.

(** Where an element sits in a concatenation. *)
Lemma app_eq_split {A} (l1 l2 pre : list A) x post :
  l1 ++ l2 = pre ++ x :: post ->
  (exists mid, l1 = pre ++ x :: mid /\ post = mid ++ l2) \/
  (exists pre', pre = l1 ++ pre' /\ l2 = pre' ++ x :: post).
Proof.
  revert pre. induction l1 as [| a l1 IH]; intros pre H.
  - right. by exists pre.
  - destruct pre as [| b pre]; cbn in H; injection H as -> H.
    + left. by exists l1.
    + destruct (IH _ H) as [(mid & -> & ->) | (pre' & -> & ->)].
      * left. by exists mid.
      * right. by exists pre'.
Qed.

Lemma attempt_failed_line_inj i j : attempt_failed_line i = attempt_failed_line j -> i = j.
Proof.
  unfold attempt_failed_line. intros H.
  apply String.app_inj in H.
  apply (inj pretty).
  remember (pretty i) as a eqn:Ha. remember (pretty j) as b eqn:Hb.
  clear Ha Hb. revert b H.
  induction a as [| c a IH]; intros [| d b] H; cbn in H; simplify_eq; try done.
  - by destruct b.
  - by destruct a.
  - by rewrite (IH b).
Qed.

Lemma attempt_failed_inj i msg j msg' :
  attempt_failed i msg = attempt_failed j msg' -> i = j /\ msg = msg'.
Proof.
  unfold attempt_failed. intros H.
  remember (attempt_failed_line i) as a eqn:Ha.
  remember (attempt_failed_line j) as b eqn:Hb.
  injection H as -> ->. subst b.
  split; [by apply attempt_failed_line_inj | done].
Qed.

(** A turn that is made starts by asking the parameter store. *)
Lemma loop_trace_head retries delay i evs r :
  loop_trace retries delay i evs r -> i <= retries ->
  exists answer tail, evs = EvSsmSend db_parameter_names true answer :: tail.
Proof.
  intros [j Hj | j evs1 p _ (a & t & -> & _) _ _
          | evs1 e (a & t & -> & _) _
          | j evs1 e rest r1 _ (a & t & -> & _) _ _] Hle.
  - lia.
  - by eexists _, _.
  - by eexists _, _.
  - by eexists _, _.
Qed.

(** Locating a failure record in the history of a turn that is retried. *)
Lemma record_in_retry (evs : list Event) e1 e2 rest pre x post :
  x ∉ evs -> x <> e2 ->
  evs ++ e1 :: e2 :: rest = pre ++ x :: post ->
  (x = e1 /\ pre = evs /\ post = e2 :: rest) \/
  (exists pre', pre = evs ++ e1 :: e2 :: pre' /\ rest = pre' ++ x :: post).
Proof.
  intros Hnot Hne H.
  apply app_eq_split in H as [(mid & -> & _) | (pre' & -> & H)].
  { exfalso. apply Hnot. apply elem_of_app. right. left. }
  destruct pre' as [| a [| b pre']]; cbn in H;
    apply cons_inv in H as [<- H].
  - subst post. left. by rewrite app_nil_r.
  - apply cons_inv in H as [<- _]. done.
  - apply cons_inv in H as [<- ->]. right. by exists pre'.
Qed.

(** After the record of a failed turn other than the last: the delay, then
    the next request to the parameter store. *)
Lemma loop_trace_failure_followed retries delay i0 evs r :
  loop_trace retries delay i0 evs r ->
  forall i msg pre post,
    i < retries ->
    evs = pre ++ attempt_failed i msg :: post ->
    exists answer post',
      post = EvSetTimeout delay :: EvSsmSend db_parameter_names true answer :: post'.
Proof.
  induction 1 as [j Hj | j evs p Hj Hev Hp Hf | evs e Hev Hp
                  | j evs e rest r Hj Hev Hp Hrest IH];
    intros i msg pre post Hi Heq.
  - by destruct pre.
  - exfalso. apply (attempt_events_no_record evs i msg Hev).
    rewrite Heq. apply elem_of_app. right. left.
  - apply app_eq_split in Heq as [(mid & -> & _) | (pre' & -> & Heq)].
    + exfalso. apply (attempt_events_no_record _ i msg Hev).
      apply elem_of_app. right. left.
    + destruct pre' as [| a pre']; cbn in Heq.
      * apply cons_inv in Heq as [Heq _].
        apply attempt_failed_inj in Heq as [-> _]. lia.
      * apply cons_inv in Heq as [_ Heq]. by destruct pre'.
  - apply record_in_retry in Heq as [(Heq & -> & ->) | (pre' & -> & ->)];
      [ | by eapply IH | by apply attempt_events_no_record | done].
    destruct (loop_trace_head _ _ _ _ _ Hrest) as (answer & tail & ->); [lia |].
    by exists answer, tail.
Qed.

(** The record of a failed last turn ends the history, and its error is the
    outcome. *)
Lemma loop_trace_last_failure retries delay i0 evs r :
  loop_trace retries delay i0 evs r ->
  forall msg pre post,
    evs = pre ++ attempt_failed retries msg :: post ->
    post = [] /\ r = Thrown (Error msg).
Proof.
  induction 1 as [j Hj | j evs p Hj Hev Hp Hf | evs e Hev Hp
                  | j evs e rest r Hj Hev Hp Hrest IH];
    intros msg pre post Heq.
  - by destruct pre.
  - exfalso. apply (attempt_events_no_record evs retries msg Hev).
    rewrite Heq. apply elem_of_app. right. left.
  - apply app_eq_split in Heq as [(mid & -> & _) | (pre' & -> & Heq)].
    + exfalso. apply (attempt_events_no_record _ retries msg Hev).
      apply elem_of_app. right. left.
    + destruct pre' as [| a pre']; cbn in Heq.
      * apply cons_inv in Heq as [Heq <-].
        apply attempt_failed_inj in Heq as [_ <-]. by destruct e.
      * apply cons_inv in Heq as [_ Heq]. by destruct pre'.
  - apply record_in_retry in Heq as [(Heq & -> & ->) | (pre' & -> & ->)];
      [ | by eapply IH | by apply attempt_events_no_record | done].
    apply attempt_failed_inj in Heq as [-> _]. lia.
Qed.

(** Between any two attempts lies exactly one delay, of the given length. *)
Lemma loop_trace_delays retries delay i0 evs r :
  loop_trace retries delay i0 evs r ->
  delays evs = replicate (attempts evs - 1) delay.
Proof.
  induction 1 as [j Hj | j evs p Hj Hev Hp Hf | evs e Hev Hp
                  | j evs e rest r Hj Hev Hp Hrest IH].
  - done.
  - by rewrite attempt_events_delays, attempt_events_attempts.
  - rewrite delays_app, attempts_app, attempt_events_delays,
      attempt_events_attempts by done. done.
  - rewrite delays_app, attempts_app, attempt_events_delays,
      attempt_events_attempts by done.
    change (delays (attempt_failed j (message e) :: EvSetTimeout delay :: rest))
      with (delay :: delays rest).
    change (attempts (attempt_failed j (message e) :: EvSetTimeout delay :: rest))
      with (attempts rest).
    rewrite IH.
    destruct (loop_trace_head _ _ _ _ _ Hrest) as (answer & tail & ->); [lia |].
    change (attempts (EvSsmSend db_parameter_names true answer :: tail))
      with (S (attempts tail)).
    cbn. by rewrite Nat.sub_0_r.
Qed.

(** The pools of a history of the loop are decided by its outcome, and the
    loop neither listens nor exits. *)
Lemma loop_trace_pools retries delay i0 evs r :
  loop_trace retries delay i0 evs r ->
  existsb is_listen evs = false /\ existsb is_exit evs = false /\
  match r with
  | Returned (Some p) => pools evs = [p]
  | Returned None => evs = [] /\ retries < i0
  | Thrown _ => pools evs = []
  | Exited _ => False
  end.
Proof.
  induction 1 as [j Hj | j evs p Hj Hev Hp Hf | evs e Hev Hp
                  | j evs e rest r Hj Hev Hp Hrest (IH1 & IH2 & IH3)].
  - done.
  - by destruct (attempt_events_quiet evs Hev) as [-> ->].
  - rewrite !existsb_app, pools_app, Hp.
    by destruct (attempt_events_quiet evs Hev) as [-> ->].
  - rewrite !existsb_app, pools_app, Hp.
    destruct (attempt_events_quiet evs Hev) as [-> ->].
    cbn. rewrite IH1, IH2. split; [done |]. split; [done |].
    destruct r as [[p |] | |]; try done.
    destruct IH3. lia.
Qed.

(** A pool that is returned was made of the parameters fetched by the
    attempt that made it: the last request to the parameter store. *)
Lemma loop_trace_fresh_config retries delay i0 evs p :
  loop_trace retries delay i0 evs (Returned (Some p)) ->
  exists pre ps tail,
    evs = pre ++ EvSsmSend db_parameter_names true (inr ps) :: tail /\
    attempts tail = 0%nat /\
    p = pool_options (collect_params ps).
Proof.
  intros H. remember (Returned (Some p)) as r eqn:Hr.
  induction H as [j Hj | j evs q Hj Hev Hp Hf | evs e Hev Hp
                  | j evs e rest r Hj Hev Hp Hrest IH]; try done.
  - injection Hr as ->. destruct Hf as (ps & tail & -> & ->).
    exists [], ps, tail. split; [done |]. split; [| done].
    apply attempt_events_attempts in Hev.
    change (attempts (EvSsmSend db_parameter_names true (inr ps) :: tail))
      with (S (attempts tail)) in Hev. lia.
  - destruct (IH Hr) as (pre & ps & tail & -> & Htail & ->).
    exists (evs ++ attempt_failed j (message e) :: EvSetTimeout delay :: pre), ps, tail.
    split; [| done]. by rewrite <- app_assoc.
Qed.

(** If turn [j] is reached and leaves no failure record, the loop returns a
    pool, after one delay per earlier turn. *)
Lemma loop_trace_first_success retries delay i0 evs r :
  loop_trace retries delay i0 evs r ->
  forall j,
    i0 <= j <= retries ->
    (j = i0 \/ exists msg, attempt_failed (j - 1) msg ∈ evs) ->
    (forall msg, attempt_failed j msg ∉ evs) ->
    (exists p, r = Returned (Some p)) /\
    delays evs = replicate (Z.to_nat (j - i0)) delay.
Proof.
  induction 1 as [i Hi | i evs p Hi Hev Hp Hf | evs e Hev Hp
                  | i evs e rest r Hi Hev Hp Hrest IH];
    intros j Hj Hprev Hnone.
  - lia.
  - destruct Hprev as [-> | [msg Hmsg]].
    + rewrite Z.sub_diag, attempt_events_delays by done. eauto.
    + by apply attempt_events_no_record in Hmsg.
  - exfalso. replace j with retries in * by lia.
    apply (Hnone (message e)). apply elem_of_app. right. left.
  - assert (j <> i) as Hne.
    { intros ->. apply (Hnone (message e)). apply elem_of_app. right. left. }
    destruct (IH j) as [Hret Hdel].
    + lia.
    + destruct Hprev as [-> | [msg Hmsg]]; [done |].
      apply elem_of_app in Hmsg as [Hmsg | Hmsg].
      { by apply attempt_events_no_record in Hmsg. }
      apply elem_of_cons in Hmsg as [Hmsg | Hmsg].
      { apply attempt_failed_inj in Hmsg as [Hmsg _]. left. lia. }
      apply elem_of_cons in Hmsg as [Hmsg | Hmsg]; [discriminate |].
      right. by exists msg.
    + intros msg Hmsg. apply (Hnone msg).
      apply elem_of_app. right. right. by right.
    + split; [done |].
      rewrite delays_app, attempt_events_delays by done.
      change (delays (attempt_failed i (message e) :: EvSetTimeout delay :: rest))
        with (delay :: delays rest).
      rewrite Hdel. cbn [app].
      replace (Z.to_nat (j - i)) with (S (Z.to_nat (j - (i + 1)))) by lia.
      done.
Qed.

(** Every attempt starts by asking the parameter store, in the world as it
    is then. *)
Lemma attempt_asks_first w s :
  exists tail,
    emitted attempt w s =
      EvSsmSend db_parameter_names true
        (ssm_send w (events s) db_parameter_names true) :: tail.
Proof.
  assert (exists tail, (attempt w s).2 =
            grow s (EvSsmSend db_parameter_names true
                      (ssm_send w (events s) db_parameter_names true) :: tail))
    as [tail Htail].
  { unfold attempt, ensureDatabaseExists, bind.
    rewrite getDBConfig_unfold. cbn zeta.
    unfold createPool, createConnection, connQuery, connEnd, console_log, ret,
      settle_unit.
    repeat case_match; simplify_eq; cbn [fst snd]; run_to_grow;
      eexists; reflexivity. }
  exists tail. by apply emitted_grow.
Qed.

(** ** The entry point *)

Lemma main_startup w : startup (main w initial).1 (main w initial).2.
Proof.
  unfold main, try_catch, bind.
  destruct (connectWithRetry_run w initial default_retries default_delay)
    as (evs & Hs & Htrace).
  destruct (loop_trace_pools _ _ _ _ _ Htrace) as (_ & _ & Hr).
  destruct (connectWithRetry default_retries default_delay w initial)
    as [[[p |] | e | c] s1]; cbn [fst snd] in *; subst s1.
  - unfold write_db, read_db, ensureTables, bind, query, settle, app_listen,
      console_log, console_error, process_exit, grow. cbn [events db initial app].
    repeat case_match; simplify_eq; unfold emit; cbn [events db fst snd];
      rewrite <- ?app_assoc; cbn [app].
    all: first [ by apply startup_serving
               | apply (startup_no_tables evs p [_; _] _ Htrace), teacher_failure
               | apply (startup_no_tables evs p [_] _ Htrace), student_failure ].
  - destruct Hr as [_ Hr]. unfold default_retries in Hr. lia.
  - unfold console_error, process_exit, bind, emit, grow.
    cbn [events db fst snd initial app]. rewrite <- ?app_assoc.
    by apply startup_no_pool.
  - done.
Qed.

(** A history that stops before the first [listen] of a longer one does not
    listen. *)
Lemma prefix_reaches_listen (history rest before after : list Event) port :
  history ++ rest = before ++ EvListen port :: after ->
  existsb is_listen before = false ->
  existsb is_listen history = true ->
  exists after', history = before ++ EvListen port :: after' /\ after = after' ++ rest.
Proof.
  intros Heq Hbefore Hlisten.
  apply app_eq_split in Heq as [(mid & -> & ->) | (pre' & -> & _)].
  - by exists mid.
  - rewrite existsb_app, Hlisten in Hbefore. done.
Qed.

Lemma prefix_never_listens (history rest full : list Event) :
  history ++ rest = full -> existsb is_listen full = false ->
  serving history = false.
Proof.
  intros <-. rewrite existsb_app. unfold serving.
  by destruct (existsb is_listen history).
Qed.

Lemma startup_outcome r s : startup r s -> r = Returned tt \/ r = Exited 1.
Proof. intros []; auto. Qed.

(** A startup that does not end in [Returned] never listens. *)
Lemma startup_failed_never_listens r s :
  startup r s -> r <> Returned tt -> existsb is_listen (events s) = false.
Proof.
  intros [evs p a1 a2 Htrace | evs e Htrace | evs p qs e Htrace Hqs] Hr;
    [done | |]; cbn [events];
    destruct (loop_trace_pools _ _ _ _ _ Htrace) as (Hl & _ & _);
    rewrite !existsb_app, Hl; [done |].
  by destruct Hqs.
Qed.

(** In a startup that succeeds, whatever listens has the pool and the
    tables. *)
Lemma startup_listens_late r s history :
  startup r s -> history `prefix_of` events s -> serving history = true ->
  r = Returned tt /\
  exists p before after,
    history = before ++ EvListen PORT :: after /\
    pools before = [p] /\ tables_ready p before /\ pools after = [] /\
    db s = Some p.
Proof.
  intros Hstart [rest Hrest] Hserving.
  assert (existsb is_listen history = true) as Hlisten.
  { unfold serving in Hserving. by apply andb_true_iff in Hserving as [-> _]. }
  destruct (startup_outcome r s Hstart) as [-> | ->].
  2:{ assert (existsb is_listen (events s) = false) as Hr
        by by apply (startup_failed_never_listens _ s Hstart).
      symmetry in Hrest.
      rewrite (prefix_never_listens _ _ _ Hrest Hr) in Hserving. done. }
  split; [done |].
  inversion Hstart as [evs p a1 a2 Htrace Hr Hs | |]. subst s. cbn [events db] in *.
  destruct (loop_trace_pools _ _ _ _ _ Htrace) as (Hl & _ & Hp).
  symmetry in Hrest.
  change (evs ++ [EvPoolQuery p create_student_sql [] (inr a1);
                  EvPoolQuery p create_teacher_sql [] (inr a2);
                  EvConsoleLog [ArgStr "✅ Tables ready"];
                  EvListen PORT; server_running])
    with (evs ++ [EvPoolQuery p create_student_sql [] (inr a1);
                  EvPoolQuery p create_teacher_sql [] (inr a2);
                  EvConsoleLog [ArgStr "✅ Tables ready"]]
              ++ EvListen PORT :: [server_running]) in Hrest.
  rewrite app_assoc in Hrest.
  apply prefix_reaches_listen in Hrest as (after' & -> & Hafter);
    [ | by rewrite existsb_app, Hl | done].
  exists p, (evs ++ [EvPoolQuery p create_student_sql [] (inr a1);
                     EvPoolQuery p create_teacher_sql [] (inr a2);
                     EvConsoleLog [ArgStr "✅ Tables ready"]]), after'.
  split; [done |]. split; [by rewrite pools_app, Hp |].
  split; [| split; [| done]].
  - split; [exists a1 | exists a2]; apply elem_of_app; right.
    + left.
    + right. left.
  - destruct after' as [| x [| y after']]; [done | |].
    + cbn in Hafter. injection Hafter as <- _. done.
    + destruct rest; discriminate Hafter.
Qed.

(** A run in which the first three attempts fail ends up serving, after
    three delays. *)
Example main_slow_database_serves :
  (main slow_database initial).1 = Returned tt /\
  serving (events (main slow_database initial).2) = true /\
  delays (events (main slow_database initial).2) = [3000; 3000; 3000] /\
  db (main slow_database initial).2 = Some sample_pool.
Proof. by vm_compute. Qed.

(** A run in which the database never comes up makes ten attempts, waits
    nine times and exits with status 1. *)
Example main_no_database_exits :
  (main no_database initial).1 = Exited 1 /\
  attempts (events (main no_database initial).2) = 10%nat /\
  delays (events (main no_database initial).2) = replicate 9 3000 /\
  serving (events (main no_database initial).2) = false.
Proof. by vm_compute. Qed.

(** ** The startup orchestrator *)

(** C10.  With [retries <= 0] the loop body never runs: [connectWithRetry]
    returns [undefined] at once, without any event, pool or error.  With
    [retries >= 1] it ends with a pool or with an error. *)
Theorem connectWithRetry_without_turns (w : World) (s : State) (retries delay : Z) :
  (retries <= 0 -> connectWithRetry retries delay w s = (Returned None, s)) /\
  (1 <= retries -> pool_or_error (connectWithRetry retries delay w s).1).
Proof.
  split.
  - intros Hle. unfold connectWithRetry, seqZ.
    by rewrite Z2Nat.nonpos by done.
  - intros Hge.
    destruct (connectWithRetry_run w s retries delay) as (evs & _ & Htrace).
    apply loop_trace_pools in Htrace as (_ & _ & Hr).
    destruct (connectWithRetry retries delay w s).1 as [[p |] | e | c]; cbn in Hr.
    + left. by exists p.
    + lia.
    + right. by exists e.
    + done.
Qed.

Lemma connectWithRetry_without_turns_witness :
  connectWithRetry 0 3000 calm initial = (Returned None, initial) /\
  pool_or_error (connectWithRetry 1 3000 calm initial).1.
Proof.
  split.
  - apply (connectWithRetry_without_turns calm initial 0 3000). lia.
  - apply (connectWithRetry_without_turns calm initial 1 3000). lia.
Defined.

(** C2.  In the history of [connectWithRetry retries delay]: the record of a
    failed attempt [i < retries] is followed at once by one timer of exactly
    [delay], itself followed at once by a new request to the parameter
    store; every attempt begins with such a request, answered by the world
    as it is at that moment; a pool that is returned is made of the
    parameters of the last request; there is one delay less than attempts.
    In particular, when attempts 1 to 3 fail and attempt 4 does not, with
    the delay of 3000, a pool is returned after the delays 3000, 3000,
    3000. *)
Theorem connectWithRetry_delay_then_refetch (w : World) (s : State) (retries delay : Z) :
  let evs := emitted (connectWithRetry retries delay) w s in
  let r := (connectWithRetry retries delay w s).1 in
  (forall i msg pre post,
      1 <= i < retries ->
      evs = pre ++ attempt_failed i msg :: post ->
      exists answer post',
        post = EvSetTimeout delay
                 :: EvSsmSend db_parameter_names true answer :: post') /\
  (forall s0, exists tail,
      emitted attempt w s0 =
        EvSsmSend db_parameter_names true
          (ssm_send w (events s0) db_parameter_names true) :: tail) /\
  (forall p, r = Returned (Some p) ->
      exists pre ps tail,
        evs = pre ++ EvSsmSend db_parameter_names true (inr ps) :: tail /\
        attempts tail = 0%nat /\
        p = pool_options (collect_params ps)) /\
  delays evs = replicate (attempts evs - 1) delay /\
  (delay = 3000 -> 4 <= retries ->
   (exists msg, attempt_failed 1 msg ∈ evs) ->
   (exists msg, attempt_failed 2 msg ∈ evs) ->
   (exists msg, attempt_failed 3 msg ∈ evs) ->
   (forall msg, attempt_failed 4 msg ∉ evs) ->
   (exists p, r = Returned (Some p)) /\ delays evs = [3000; 3000; 3000]).
Proof.
  intros evs r. subst evs r.
  destruct (connectWithRetry_run w s retries delay) as (evs & Hs & Htrace).
  rewrite (emitted_grow _ _ _ _ Hs).
  split; [| split; [| split; [| split]]].
  - intros i msg pre post Hi Heq.
    by apply (loop_trace_failure_followed _ _ _ _ _ Htrace i msg pre post); [lia |].
  - intros s0. apply attempt_asks_first.
  - intros p Hp. rewrite Hp in Htrace.
    by apply (loop_trace_fresh_config _ _ _ _ _ Htrace).
  - by apply (loop_trace_delays _ _ _ _ _ Htrace).
  - intros -> Hretries _ _ H3 H4.
    by apply (loop_trace_first_success _ _ _ _ _ Htrace 4); [lia | right |].
Qed.

(** The record of a failed attempt is none of the events that follow the
    loop in the entry point. *)
Ltac peel Heq pre :=
  cbn [app] in Heq; unfold attempt_failed, app_failed, server_running in Heq;
  repeat (destruct pre as [| ? pre]; cbn [app] in Heq;
          [discriminate Heq | apply cons_inv in Heq as [_ Heq]]);
  by destruct pre.

(** C3.  When the last attempt (number [retries]) fails, its turn rethrows
    the attempt's own error after recording it, without a delay; in the
    history the record of that failure is the last event of
    [connectWithRetry], whose outcome is that error.  In the entry point
    (10 attempts) it is followed only by the startup failure record and by
    [process.exit(1)]: the process ends with a status other than zero. *)
Theorem last_attempt_failure_is_fatal (w : World) :
  (forall retries delay s e s1,
      attempt w s = (Thrown e, s1) ->
      turn retries delay retries w s =
        (Thrown e, emit (attempt_failed retries (message e)) s1)) /\
  (forall retries delay s msg pre post,
      emitted (connectWithRetry retries delay) w s
        = pre ++ attempt_failed retries msg :: post ->
      post = [] /\
      (connectWithRetry retries delay w s).1 = Thrown (Error msg)) /\
  (forall msg pre post,
      events (main w initial).2 = pre ++ attempt_failed default_retries msg :: post ->
      post = [app_failed (Error msg); EvExit 1] /\
      exists code, (main w initial).1 = Exited code /\ code <> 0).
Proof.
  split; [| split].
  - intros retries delay s e s1 Hfail.
    rewrite turn_run, Hfail. cbn zeta. by rewrite Z.eqb_refl.
  - intros retries delay s msg pre post Heq.
    destruct (connectWithRetry_run w s retries delay) as (evs & Hs & Htrace).
    rewrite (emitted_grow _ _ _ _ Hs) in Heq.
    by apply (loop_trace_last_failure _ _ _ _ _ Htrace msg pre post).
  - intros msg pre post Heq.
    destruct (main_startup w) as [evs p a1 a2 Htrace | evs e Htrace
                                 | evs p qs e Htrace Hqs];
      cbn [events] in Heq.
    + exfalso.
      apply app_eq_split in Heq as [(mid & Hevs & _) | (pre' & _ & Heq)].
      * by destruct (loop_trace_last_failure _ _ _ _ _ Htrace _ _ _ Hevs).
      * peel Heq pre'.
    + apply app_eq_split in Heq as [(mid & Hevs & ->) | (pre' & _ & Heq)].
      * destruct (loop_trace_last_failure _ _ _ _ _ Htrace _ _ _ Hevs)
          as [-> Hr].
        injection Hr as ->. split; [done |]. by exists 1.
      * exfalso. peel Heq pre'.
    + exfalso.
      apply app_eq_split in Heq as [(mid & Hevs & _) | (pre' & _ & Heq)].
      * by destruct (loop_trace_last_failure _ _ _ _ _ Htrace _ _ _ Hevs).
      * destruct Hqs; peel Heq pre'.
Qed.

Lemma last_attempt_failure_is_fatal_witness :
  turn 10 3000 10 no_database initial =
    (Thrown (Error "ECONNREFUSED"),
     emit (attempt_failed 10 "ECONNREFUSED") (attempt no_database initial).2) /\
  (connectWithRetry 2 3000 no_database initial).1 = Thrown (Error "ECONNREFUSED") /\
  exists code, (main no_database initial).1 = Exited code /\ code <> 0.
Proof.
  destruct (last_attempt_failure_is_fatal no_database) as (Hturn & Hloop & Hmain).
  split; [| split].
  - apply (Hturn 10 3000 initial (Error "ECONNREFUSED")). reflexivity.
  - apply (Hloop 2 3000 initial "ECONNREFUSED"
             (take 6 (emitted (connectWithRetry 2 3000) no_database initial)) []).
    vm_compute. reflexivity.
  - apply (Hmain "ECONNREFUSED"
             (take 38 (events (main no_database initial).2))
             (drop 39 (events (main no_database initial).2))).
    vm_compute. reflexivity.
Defined.

Lemma connectWithRetry_delay_then_refetch_witness :
  (exists answer post',
      drop 3 (emitted (connectWithRetry 10 3000) slow_database initial) =
        EvSetTimeout 3000 :: EvSsmSend db_parameter_names true answer :: post') /\
  (exists pre ps tail,
      emitted (connectWithRetry 10 3000) slow_database initial =
        pre ++ EvSsmSend db_parameter_names true (inr ps) :: tail /\
      attempts tail = 0%nat /\
      sample_pool = pool_options (collect_params ps)) /\
  (exists p, (connectWithRetry 10 3000 slow_database initial).1 = Returned (Some p)) /\
  delays (emitted (connectWithRetry 10 3000) slow_database initial) = [3000; 3000; 3000].
Proof.
  pose proof (connectWithRetry_delay_then_refetch slow_database initial 10 3000) as H.
  cbv zeta in H. destruct H as (Hnext & _ & Hfresh & _ & Hscenario).
  split; [| split].
  - apply (Hnext 1 "ECONNREFUSED"
             (take 2 (emitted (connectWithRetry 10 3000) slow_database initial))).
    + lia.
    + vm_compute. reflexivity.
  - apply (Hfresh sample_pool). vm_compute. reflexivity.
  - apply Hscenario.
    + reflexivity.
    + lia.
    + exists "ECONNREFUSED". apply list_elem_of_lookup_2 with 2%nat.
      vm_compute. reflexivity.
    + exists "ECONNREFUSED". apply list_elem_of_lookup_2 with 6%nat.
      vm_compute. reflexivity.
    + exists "ECONNREFUSED". apply list_elem_of_lookup_2 with 10%nat.
      vm_compute. reflexivity.
    + intros msg Hin. apply list_elem_of_In in Hin. vm_compute in Hin.
      repeat (destruct Hin as [Hin | Hin]; [discriminate Hin |]). exact Hin.
Defined.

(** C5.  At every moment of the entry point's run (every state whose
    history is a prefix of the run's history), a request is answered only
    if the server listens, and then exactly one pool has been created and
    both tables have been initialised on it before [listen] was called, the
    run is one that succeeds and [db] is that pool.  A run either succeeds
    or exits with status 1, and in a run that does not succeed no request
    is ever answered. *)
Theorem no_route_before_pool (w : World) :
  (forall req s',
      events s' `prefix_of` events (main w initial).2 ->
      is_Some (serve req w s') ->
      (main w initial).1 = Returned tt /\
      exists p before after,
        events s' = before ++ EvListen PORT :: after /\
        pools before = [p] /\ tables_ready p before /\
        pools (events s') = [p] /\
        db (main w initial).2 = Some p) /\
  ((main w initial).1 = Returned tt \/ (main w initial).1 = Exited 1) /\
  ((main w initial).1 <> Returned tt ->
   forall req s',
     events s' `prefix_of` events (main w initial).2 -> serve req w s' = None).
Proof.
  pose proof (main_startup w) as Hstart.
  split; [| split].
  - intros req s' Hprefix Hserve.
    assert (serving (events s') = true) as Hserving.
    { unfold serve in Hserve. destruct (serving (events s')); [done |].
      by destruct Hserve. }
    destruct (startup_listens_late _ _ _ Hstart Hprefix Hserving)
      as (Hr & p & before & after & Heq & Hp & Ht & Ha & Hdb).
    split; [done |]. exists p, before, after.
    repeat split; try done; try apply Ht.
    rewrite Heq, pools_app. cbn. change (omap _ after) with (pools after).
    by rewrite Hp, Ha.
  - by apply startup_outcome in Hstart.
  - intros Hr req s' [rest Hrest].
    apply (startup_failed_never_listens _ _ Hstart) in Hr.
    symmetry in Hrest. unfold serve.
    by rewrite (prefix_never_listens _ _ _ Hrest Hr).
Qed.

Lemma no_route_before_pool_witness :
  ((main calm initial).1 = Returned tt /\
   exists p before after,
     events (main calm initial).2 = before ++ EvListen PORT :: after /\
     pools before = [p] /\ tables_ready p before /\
     pools (events (main calm initial).2) = [p] /\
     db (main calm initial).2 = Some p) /\
  serve GET_student no_database (main no_database initial).2 = None.
Proof.
  split.
  - destruct (no_route_before_pool calm) as (Hserved & _ & _).
    apply (Hserved GET_health (main calm initial).2); [done |].
    vm_compute. by eexists.
  - destruct (no_route_before_pool no_database) as (_ & _ & Hfailed).
    apply Hfailed; [| done].
    intros H. vm_compute in H. discriminate H.
Defined.

(** ** The schema initializer *)

Lemma ensureDatabaseExists_success w s config :
  let opts := {| conn_host := prop config "host";
                 conn_user := prop config "user";
                 conn_password := prop config "password" |} in
  let conn := length (events s) in
  let sql := create_database_sql config in
  mysql_createConnection w (events s) opts = None ->
  conn_query w (events s ++ [EvCreateConnection opts None]) conn sql = None ->
  conn_end w (events s ++ [EvCreateConnection opts None; EvConnQuery conn sql None])
    conn = None ->
  ensureDatabaseExists config w s =
    (Returned tt,
     grow s [EvCreateConnection opts None; EvConnQuery conn sql None;
             EvConnEnd conn None; EvConsoleLog [ArgStr "✅ Database verified"]]).
Proof.
  intros opts conn sql Hopen Hquery Hend.
  unfold ensureDatabaseExists, bind, createConnection, connQuery, connEnd,
    console_log, settle_unit.
  fold opts. rewrite Hopen. cbn [events emit]. fold conn sql.
  rewrite Hquery. cbn [events emit]. rewrite <- ?app_assoc. cbn [app].
  rewrite Hend. by rewrite !emit_grow, !grow_grow.
Qed.

(** C1 (what the code does).  When the bootstrap connection is opened and
    the "create database" statement fails, [ensureDatabaseExists] rethrows
    the statement's error at once: the history of the call holds the
    opening of the connection and the failed statement, and no [conn.end()]
    at all.  The connection is closed on the path where the statement
    succeeds only. *)
Theorem ensureDatabaseExists_statement_failure_skips_end (w : World) (s : State)
    (config : gmap string (option string)) (e : JsError) :
  let opts := {| conn_host := prop config "host";
                 conn_user := prop config "user";
                 conn_password := prop config "password" |} in
  let conn := length (events s) in
  let sql := create_database_sql config in
  mysql_createConnection w (events s) opts = None ->
  conn_query w (events s ++ [EvCreateConnection opts None]) conn sql = Some e ->
  ensureDatabaseExists config w s =
    (Thrown e, grow s [EvCreateConnection opts None; EvConnQuery conn sql (Some e)]) /\
  forall c r, EvConnEnd c r ∉ emitted (ensureDatabaseExists config) w s.
Proof.
  intros opts conn sql Hopen Hquery.
  assert (ensureDatabaseExists config w s =
          (Thrown e, grow s [EvCreateConnection opts None;
                             EvConnQuery conn sql (Some e)])) as Hrun.
  { unfold ensureDatabaseExists, bind, createConnection, connQuery, settle_unit.
    fold opts. rewrite Hopen. cbn [events emit]. fold conn sql.
    rewrite Hquery. by rewrite !emit_grow, !grow_grow. }
  split; [done |].
  intros c r Hin. rewrite (emitted_grow _ w s _ (f_equal snd Hrun)) in Hin.
  apply elem_of_cons in Hin as [Hin | Hin]; [discriminate Hin |].
  apply elem_of_cons in Hin as [Hin | Hin]; [discriminate Hin |].
  by apply elem_of_nil in Hin.
Qed.

Lemma ensureDatabaseExists_statement_failure_skips_end_witness :
  ensureDatabaseExists sample_config statement_denied initial =
    (Thrown (Error "ER_DBACCESS_DENIED_ERROR"),
     grow initial
       [EvCreateConnection {| conn_host := Some "h"; conn_user := Some "u";
                              conn_password := Some "p" |} None;
        EvConnQuery 0 "CREATE DATABASE IF NOT EXISTS `school`"
          (Some (Error "ER_DBACCESS_DENIED_ERROR"))]) /\
  forall c r,
    EvConnEnd c r ∉ emitted (ensureDatabaseExists sample_config) statement_denied initial.
Proof.
  apply (ensureDatabaseExists_statement_failure_skips_end statement_denied initial
           sample_config (Error "ER_DBACCESS_DENIED_ERROR")); reflexivity.
Defined.

(** ** The routes *)

Lemma strict_eq_zero_count n : strict_eq_zero (JNum (inject_Z n)) = (n =? 0).
Proof.
  unfold strict_eq_zero, Qeq_bool, inject_Z. cbn.
  rewrite Z.mul_1_r. by destruct n.
Qed.

Lemma delete_student_run w s p id :
  db s = Some p ->
  (delete_student id w s).1 =
  match pool_query w (events s) p delete_student_sql [JStr id] with
  | inl _ => answer 500 "error" "Failed to delete student"
  | inr (JUndefined | JNull) => answer 500 "error" "Failed to delete student"
  | inr result =>
      if strict_eq_zero (get_field "affectedRows" result)
      then answer 404 "message" "Student not found"
      else answer 200 "message" "Student deleted successfully"
  end.
Proof.
  intros Hdb.
  unfold delete_student, try_catch, bind, read_db, query, settle, member,
    console_error, ret, throw.
  rewrite Hdb. fold delete_student_sql.
  destruct (pool_query w (events s) p delete_student_sql [JStr id]) as [e | result];
    [done |].
  destruct result; cbn [fst snd]; try done;
    by destruct (strict_eq_zero _).
Qed.

Lemma delete_teacher_run w s p id :
  db s = Some p ->
  (delete_teacher id w s).1 =
  match pool_query w (events s) p delete_teacher_sql [JStr id] with
  | inl _ => answer 500 "error" "Failed to delete teacher"
  | inr (JUndefined | JNull) => answer 500 "error" "Failed to delete teacher"
  | inr result =>
      if strict_eq_zero (get_field "affectedRows" result)
      then answer 404 "message" "Teacher not found"
      else answer 200 "message" "Teacher deleted successfully"
  end.
Proof.
  intros Hdb.
  unfold delete_teacher, try_catch, bind, read_db, query, settle, member,
    console_error, ret, throw.
  rewrite Hdb. fold delete_teacher_sql.
  destruct (pool_query w (events s) p delete_teacher_sql [JStr id]) as [e | result];
    [done |].
  destruct result; cbn [fst snd]; try done;
    by destruct (strict_eq_zero _).
Qed.

(** C6.  [DELETE /student/:id] on a server whose [db] is the pool [p]: when
    the statement reports that rows were affected the answer is 200, when it
    reports none the answer is 404 with the message "Student not found", and
    when the statement fails the answer is 500.  [DELETE /teacher/:id]
    likewise, with "Teacher not found". *)
Theorem delete_routes_answers (w : World) (s : State) (p : Pool) (id : string) :
  db s = Some p ->
  (forall fields n,
      pool_query w (events s) p delete_student_sql [JStr id] = inr (JObj fields) ->
      field_of "affectedRows" fields = JNum (inject_Z n) ->
      (0 < n -> (delete_student id w s).1 =
         Returned {| status := 200;
                     body := JObj [("message", JStr "Student deleted successfully")] |}) /\
      (n = 0 -> (delete_student id w s).1 =
         Returned {| status := 404;
                     body := JObj [("message", JStr "Student not found")] |})) /\
  (forall e,
      pool_query w (events s) p delete_student_sql [JStr id] = inl e ->
      (delete_student id w s).1 =
        Returned {| status := 500;
                    body := JObj [("error", JStr "Failed to delete student")] |}) /\
  (forall fields n,
      pool_query w (events s) p delete_teacher_sql [JStr id] = inr (JObj fields) ->
      field_of "affectedRows" fields = JNum (inject_Z n) ->
      (0 < n -> (delete_teacher id w s).1 =
         Returned {| status := 200;
                     body := JObj [("message", JStr "Teacher deleted successfully")] |}) /\
      (n = 0 -> (delete_teacher id w s).1 =
         Returned {| status := 404;
                     body := JObj [("message", JStr "Teacher not found")] |})) /\
  (forall e,
      pool_query w (events s) p delete_teacher_sql [JStr id] = inl e ->
      (delete_teacher id w s).1 =
        Returned {| status := 500;
                    body := JObj [("error", JStr "Failed to delete teacher")] |}).
Proof.
  intros Hdb.
  split; [| split; [| split]].
  - intros fields n Hq Hf.
    rewrite (delete_student_run w s p id Hdb), Hq.
    cbn [get_field]. rewrite Hf, strict_eq_zero_count.
    split; intros Hn; destruct (Z.eqb_spec n 0); (lia || done).
  - intros e Hq. by rewrite (delete_student_run w s p id Hdb), Hq.
  - intros fields n Hq Hf.
    rewrite (delete_teacher_run w s p id Hdb), Hq.
    cbn [get_field]. rewrite Hf, strict_eq_zero_count.
    split; intros Hn; destruct (Z.eqb_spec n 0); (lia || done).
  - intros e Hq. by rewrite (delete_teacher_run w s p id Hdb), Hq.
Qed.

Lemma delete_routes_answers_witness :
  (delete_student "999" (answering (affected 0)) started).1 =
    Returned {| status := 404; body := JObj [("message", JStr "Student not found")] |} /\
  (delete_student "7" (answering (affected 1)) started).1 =
    Returned {| status := 200;
                body := JObj [("message", JStr "Student deleted successfully")] |} /\
  (delete_teacher "7" (answering (inl (Error "ER_LOCK_DEADLOCK"))) started).1 =
    Returned {| status := 500;
                body := JObj [("error", JStr "Failed to delete teacher")] |}.
Proof.
  split; [| split].
  - destruct (delete_routes_answers (answering (affected 0)) started sample_pool "999")
      as (Hrows & _); [reflexivity |].
    destruct (Hrows _ 0 eq_refl eq_refl) as [_ Hnone]. by apply Hnone.
  - destruct (delete_routes_answers (answering (affected 1)) started sample_pool "7")
      as (Hrows & _); [reflexivity |].
    destruct (Hrows _ 1 eq_refl eq_refl) as [Hsome _]. apply Hsome. lia.
  - destruct (delete_routes_answers (answering (inl (Error "ER_LOCK_DEADLOCK")))
                started sample_pool "7") as (_ & _ & _ & Herr); [reflexivity |].
    by apply (Herr (Error "ER_LOCK_DEADLOCK")).
Defined.

Lemma get_health_db_run w s p :
  db s = Some p ->
  (get_health_db w s).1 =
  match pool_query w (events s) p probe_sql [] with
  | inl e =>
      Returned (res_json 500 (JObj [("status", JStr "error");
                                    ("database", JStr "down");
                                    ("error", JStr (message e))]))
  | inr (JUndefined | JNull) =>
      Returned (res_json 500 (JObj [("status", JStr "error");
                                    ("database", JStr "down");
                                    ("error", JStr (message (cannot_read "0")))]))
  | inr rows =>
      Returned (res_json 200 (JObj [("status", JStr "ok");
                                    ("database", JStr "connected");
                                    ("host", of_opt (process_env w "host"));
                                    ("database_name", of_opt (process_env w "database"));
                                    ("result", get_index0 rows)]))
  end.
Proof.
  intros Hdb.
  unfold get_health_db, try_catch, bind, read_db, query, settle, getenv,
    first_item, console_error, ret, throw.
  rewrite Hdb. fold probe_sql.
  destruct (pool_query w (events s) p probe_sql []) as [e | rows]; [done |].
  by destruct rows.
Qed.

(** C8 (amended).  [GET /health/db] on a server whose [db] is the pool [p]:
    when the probe succeeds with the row [{db_up: 1}] the answer is 200 and
    its body has the fields status "ok", database "connected", then [host]
    and [database_name] for those of the environment variables [host] and
    [database] that are set, then result [{db_up: 1}] - so exactly the three
    fields status, database, result when neither variable is set; when
    the probe fails the answer is 500 with status "error", database "down"
    and the message of the probe's error. *)
Theorem health_db_answers (w : World) (s : State) (p : Pool) :
  db s = Some p ->
  (pool_query w (events s) p probe_sql [] = inr (JArr [JObj [("db_up", JNum 1)]]) ->
   (get_health_db w s).1 =
     Returned {| status := 200;
                 body := JObj ([("status", JStr "ok"); ("database", JStr "connected")]
                               ++ env_fields w
                               ++ [("result", JObj [("db_up", JNum 1)])]) |} /\
   (process_env w "host" = None -> process_env w "database" = None ->
    (get_health_db w s).1 = Returned bare_health_db)) /\
  (forall e,
      pool_query w (events s) p probe_sql [] = inl e ->
      (get_health_db w s).1 =
        Returned {| status := 500;
                    body := JObj [("status", JStr "error"); ("database", JStr "down");
                                  ("error", JStr (message e))] |}).
Proof.
  intros Hdb. split.
  - intros Hq. rewrite (get_health_db_run w s p Hdb), Hq. unfold env_fields.
    split.
    + by destruct (process_env w "host"), (process_env w "database").
    + by intros -> ->.
  - intros e Hq. by rewrite (get_health_db_run w s p Hdb), Hq.
Qed.

Lemma health_db_answers_witness :
  (get_health_db hosted started).1 =
    Returned {| status := 200;
                body := JObj [("status", JStr "ok"); ("database", JStr "connected");
                              ("host", JStr "db.internal");
                              ("result", JObj [("db_up", JNum 1)])] |} /\
  (get_health_db (answering (inl (Error "ETIMEDOUT"))) started).1 =
    Returned {| status := 500;
                body := JObj [("status", JStr "error"); ("database", JStr "down");
                              ("error", JStr "ETIMEDOUT")] |}.
Proof.
  split.
  - destruct (health_db_answers hosted started sample_pool) as [Hok _];
      [reflexivity |].
    by destruct (Hok eq_refl) as [Hbody _].
  - destruct (health_db_answers (answering (inl (Error "ETIMEDOUT"))) started
                sample_pool) as [_ Herr]; [reflexivity |].
    by apply (Herr (Error "ETIMEDOUT")).
Defined.

(** C8 as stated does not hold: with the environment variable [host] set,
    the body of a successful [/health/db] has a fourth field. *)
Lemma health_db_body_has_host :
  db started = Some sample_pool /\
  pool_query hosted (events started) sample_pool probe_sql []
    = inr (JArr [JObj [("db_up", JNum 1)]]) /\
  (get_health_db hosted started).1 <> Returned bare_health_db.
Proof.
  split; [reflexivity |]. split; [reflexivity |].
  vm_compute. discriminate.
Defined.

(** C9.  On a server whose [db] is the pool [p], [GET /] and [GET /student]
    run the same statement, "SELECT * FROM student", on the same history.
    When it succeeds with [rows], both answer 200 and leave the same state;
    the body of [/student] is the rows, and they are the [data] field of
    the body of [/].  When it fails, both fail with the statement's error. *)
Theorem root_and_student_same_rows (w : World) (s : State) (p : Pool) :
  db s = Some p ->
  (forall rows,
      pool_query w (events s) p select_students_sql [] = inr rows ->
      exists root student s',
        get_root w s = (Returned root, s') /\
        get_student w s = (Returned student, s') /\
        status root = 200 /\ status student = 200 /\
        body student = stringify rows /\
        get_field "message" (body root) = JStr "Backend running 🚀" /\
        get_field "data" (body root) = body student) /\
  (forall e,
      pool_query w (events s) p select_students_sql [] = inl e ->
      (get_root w s).1 = Thrown e /\ (get_student w s).1 = Thrown e).
Proof.
  intros Hdb.
  unfold get_root, get_student, bind, read_db, query, settle, ret.
  rewrite Hdb. fold select_students_sql.
  split.
  - intros rows ->. eexists _, _, _.
    split; [reflexivity |]. split; [reflexivity |].
    cbn [status body res_json]. repeat split; by destruct rows.
  - by intros e ->.
Qed.

Lemma root_and_student_same_rows_witness :
  (exists root student s',
      get_root (answering (inr two_students)) started = (Returned root, s') /\
      get_student (answering (inr two_students)) started = (Returned student, s') /\
      status root = 200 /\ status student = 200 /\
      body student = two_students /\
      get_field "message" (body root) = JStr "Backend running 🚀" /\
      get_field "data" (body root) = two_students) /\
  (get_root (answering (inl (Error "ER_NO_SUCH_TABLE"))) started).1
    = Thrown (Error "ER_NO_SUCH_TABLE") /\
  (get_student (answering (inl (Error "ER_NO_SUCH_TABLE"))) started).1
    = Thrown (Error "ER_NO_SUCH_TABLE").
Proof.
  split.
  - destruct (root_and_student_same_rows (answering (inr two_students)) started
                sample_pool) as [Hrows _]; [reflexivity |].
    destruct (Hrows two_students eq_refl)
      as (root & student & s' & Hroot & Hstudent & Hr & Hs & Hbody & Hmsg & Hdata).
    exists root, student, s'.
    repeat split; try done; rewrite ?Hdata, ?Hbody; reflexivity.
  - destruct (root_and_student_same_rows
                (answering (inl (Error "ER_NO_SUCH_TABLE"))) started sample_pool)
      as [_ Hfailed]; [reflexivity |].
    by apply (Hfailed (Error "ER_NO_SUCH_TABLE")).
Defined.




(** * Further properties *)

(** ** The parameter fetcher *)

Lemma truthy_filled v : truthy v = true <-> filled v.
Proof.
  unfold filled. split.
  - destruct v as [[| c text] |]; try done. intros _. by eexists.
  - intros (text & -> & Hne). by destruct text.
Qed.

Lemma check_passes params :
  negb (truthy (prop params "host")) || negb (truthy (prop params "user"))
  || negb (truthy (prop params "password")) || negb (truthy (prop params "name")) = false
  <-> forall k, k ∈ required_keys -> filled (prop params k).
Proof.
  rewrite !orb_false_iff, !negb_false_iff, !truthy_filled.
  unfold required_keys. split.
  - intros [[[Hh Hu] Hp] Hn] k. rewrite !elem_of_cons, elem_of_nil.
    intros [-> | [-> | [-> | [-> | []]]]]; done.
  - intros Hall. repeat split; apply Hall; rewrite !elem_of_cons; tauto.
Qed.

(** X1.  [getDBConfig] asks the parameter store exactly once, whatever the
    outcome.  It returns a configuration exactly when the store answers and
    the four required properties of the collected answer are non-empty
    strings, and what it returns is the collected answer; when the store
    rejects the request, that error is rethrown unchanged. *)
Theorem getDBConfig_outcomes (w : World) (s : State) :
  emitted getDBConfig w s =
    [EvSsmSend db_parameter_names true
       (ssm_send w (events s) db_parameter_names true)] /\
  (forall cfg,
      (getDBConfig w s).1 = Returned cfg <->
      exists ps,
        ssm_send w (events s) db_parameter_names true = inr ps /\
        cfg = collect_params ps /\
        forall k, k ∈ required_keys -> filled (prop cfg k)) /\
  (forall e,
      ssm_send w (events s) db_parameter_names true = inl e ->
      (getDBConfig w s).1 = Thrown e).
Proof.
  rewrite getDBConfig_unfold. cbn zeta.
  destruct (ssm_send w (events s) db_parameter_names true) as [e | ps] eqn:Hsend.
  - split; [by apply emitted_grow; rewrite getDBConfig_unfold; cbn zeta; rewrite Hsend |].
    split; [| by intros ? [= ->]].
    intros cfg. split; [done |]. by intros (ps & ? & _).
  - destruct (_ || _) eqn:Hcheck.
    + split; [by apply emitted_grow; rewrite getDBConfig_unfold; cbn zeta;
                rewrite Hsend, Hcheck |].
      split; [| done]. intros cfg. split; [done |].
      intros (ps' & [= <-] & -> & Hall).
      apply check_passes in Hall. congruence.
    + split; [by apply emitted_grow; rewrite getDBConfig_unfold; cbn zeta;
                rewrite Hsend, Hcheck |].
      split; [| done]. intros cfg. cbn [fst]. split.
      * intros [= <-]. exists ps. split; [done |]. split; [done |].
        by apply check_passes.
      * intros (ps' & [= <-] & -> & _). done.
Qed.

Lemma getDBConfig_outcomes_witness :
  (getDBConfig calm initial).1 = Returned sample_config /\
  (getDBConfig no_store initial).1 = Thrown (Error "ENOTFOUND").
Proof.
  split.
  - destruct (getDBConfig_outcomes calm initial) as (_ & Hreturned & _).
    apply Hreturned. exists (sample_parameters "school").
    split; [reflexivity |]. split; [reflexivity |].
    intros k Hk. unfold required_keys in Hk.
    rewrite !elem_of_cons, elem_of_nil in Hk.
    destruct Hk as [-> | [-> | [-> | [-> | []]]]];
      eexists; (split; [reflexivity | discriminate]).
  - destruct (getDBConfig_outcomes no_store initial) as (_ & _ & Hthrown).
    by apply Hthrown.
Defined.

Lemma set_prop_commute params k1 v1 k2 v2 :
  k1 <> k2 ->
  set_prop (set_prop params k1 v1) k2 v2 = set_prop (set_prop params k2 v2) k1 v1.
Proof.
  intros Hne. unfold set_prop. repeat case_decide; try done.
  by apply insert_insert_ne.
Qed.

Lemma foldl_store_permutation ps ps' :
  ps ≡ₚ ps' -> NoDup (param_key <$> ps) ->
  forall params, foldl store_param params ps = foldl store_param params ps'.
Proof.
  induction 1 as [| p ps ps' Hperm IH | p q ps | ps ps' ps'' H1 IH1 H2 IH2];
    intros Hnodup params.
  - done.
  - cbn. apply IH. by apply NoDup_cons in Hnodup as [_ ?].
  - cbn. f_equal. unfold store_param. apply set_prop_commute.
    cbn in Hnodup. apply NoDup_cons in Hnodup as [Hq _].
    intros Heq. apply Hq. rewrite Heq. left.
  - rewrite IH1 by done. apply IH2. by rewrite <- H1.
Qed.

(** X2.  The order in which the parameter store lists the parameters does
    not matter: two answers that are permutations of each other, with no
    two parameters stored under the same key, give the same outcome. *)
Theorem getDBConfig_order_irrelevant (w w' : World) (s s' : State)
    (ps ps' : list SsmParameter) :
  ps ≡ₚ ps' ->
  NoDup (param_key <$> ps) ->
  ssm_send w (events s) db_parameter_names true = inr ps ->
  ssm_send w' (events s') db_parameter_names true = inr ps' ->
  (getDBConfig w s).1 = (getDBConfig w' s').1.
Proof.
  intros Hperm Hnodup Hs Hs'.
  rewrite !getDBConfig_unfold. cbn zeta. rewrite Hs, Hs'.
  unfold collect_params. rewrite (foldl_store_permutation ps ps' Hperm Hnodup).
  by destruct (_ || _).
Qed.

Lemma getDBConfig_order_irrelevant_witness :
  (getDBConfig calm initial).1 = (getDBConfig reversed initial).1.
Proof.
  apply (getDBConfig_order_irrelevant calm reversed initial initial
           (sample_parameters "school") (reverse (sample_parameters "school"))).
  - symmetry. apply reverse_Permutation.
  - vm_compute. repeat (apply NoDup_cons; split;
      [rewrite ?elem_of_cons, elem_of_nil; intros H;
       repeat (destruct H as [H | H]; [discriminate H |]); done |]).
    apply NoDup_nil. done.
  - reflexivity.
  - reflexivity.
Defined.

Lemma split_slash_not_nil s : split_slash s <> [].
Proof.
  destruct s as [| c rest]; [done |]. cbn.
  destruct (Ascii.eqb c "/"); [done |]. by destruct (split_slash rest).
Qed.

Lemma split_slash_after_slash dir rest :
  split_slash (dir +:+ String "/" rest) = split_slash dir ++ split_slash rest.
Proof.
  induction dir as [| c dir IH]; [done |].
  change (String c dir +:+ String "/" rest)
    with (String c (dir +:+ String "/" rest)).
  cbn [split_slash]. rewrite IH.
  destruct (Ascii.eqb c "/"); [done |].
  pose proof (split_slash_not_nil dir) as Hne.
  by destruct (split_slash dir).
Qed.

Lemma split_slash_whole s : has_slash s = false -> split_slash s = [s].
Proof.
  induction s as [| c s IH]; [done |]. cbn.
  intros [Hc Hs]%orb_false_iff. rewrite Hc, IH; done.
Qed.

(** X3.  The key under which a parameter is stored is what follows the last
    slash of its name: a name [dir/key] whose [key] has no slash is stored
    under [key] whatever [dir] is, and a name without any slash is stored
    under itself. *)
Theorem param_key_last_segment (dir key : string) (v : option string) :
  has_slash key = false ->
  param_key {| Name := dir +:+ String "/"%char key; Value := v |} = key /\
  param_key {| Name := key; Value := v |} = key.
Proof.
  intros Hkey. unfold param_key. cbn [Name].
  rewrite split_slash_after_slash, (split_slash_whole key Hkey).
  by rewrite last_snoc.
Qed.

Lemma param_key_last_segment_witness :
  param_key {| Name := "/myapp/db" +:+ String "/"%char "password"; Value := None |}
    = "password" /\
  param_key {| Name := "password"; Value := None |} = "password".
Proof. by apply (param_key_last_segment "/myapp/db" "password" None). Defined.

(** ** The schema initializer and the table initializer *)

(** X4.  [ensureDatabaseExists] returns only after the whole sequence has
    succeeded: its events are then exactly the opening of one connection
    with the host, user and password of the configuration (no database
    selected), the "create database if not exists" statement for the
    configured name on that connection, the closing of that connection, and
    the log line.  When the connection cannot be opened, the error is
    rethrown and no statement is sent. *)
Theorem ensureDatabaseExists_outcomes (w : World) (s : State)
    (config : gmap string (option string)) :
  let opts := {| conn_host := prop config "host";
                 conn_user := prop config "user";
                 conn_password := prop config "password" |} in
  let conn := length (events s) in
  ((ensureDatabaseExists config w s).1 = Returned tt ->
   emitted (ensureDatabaseExists config) w s =
     [EvCreateConnection opts None;
      EvConnQuery conn (create_database_sql config) None;
      EvConnEnd conn None;
      EvConsoleLog [ArgStr "✅ Database verified"]]) /\
  (forall e,
      mysql_createConnection w (events s) opts = Some e ->
      (ensureDatabaseExists config w s).1 = Thrown e /\
      emitted (ensureDatabaseExists config) w s = [EvCreateConnection opts (Some e)]).
Proof.
  intros opts conn.
  assert (forall evs, (ensureDatabaseExists config w s).2 = grow s evs ->
                      emitted (ensureDatabaseExists config) w s = evs) as Hemitted
    by (intros evs; apply emitted_grow).
  revert Hemitted.
  unfold ensureDatabaseExists, bind, createConnection, connQuery, connEnd,
    console_log, settle_unit.
  fold opts conn. intros Hemitted. split.
  - revert Hemitted. repeat case_match; simplify_eq; cbn [fst snd];
      intros Hemitted Hr; try discriminate Hr.
    apply Hemitted. by rewrite !emit_grow, !grow_grow.
  - intros e He. revert Hemitted. rewrite He. cbn [fst snd]. intros Hemitted.
    split; [done |]. apply Hemitted. by rewrite emit_grow.
Qed.

Lemma ensureDatabaseExists_outcomes_witness :
  emitted (ensureDatabaseExists sample_config) calm initial =
    [EvCreateConnection {| conn_host := Some "h"; conn_user := Some "u";
                           conn_password := Some "p" |} None;
     EvConnQuery 0 "CREATE DATABASE IF NOT EXISTS `school`" None;
     EvConnEnd 0 None;
     EvConsoleLog [ArgStr "✅ Database verified"]] /\
  (ensureDatabaseExists sample_config no_database initial).1
    = Thrown (Error "ECONNREFUSED").
Proof.
  split.
  - pose proof (ensureDatabaseExists_outcomes calm initial sample_config) as H.
    cbv zeta in H. destruct H as [Hreturned _]. by apply Hreturned.
  - pose proof (ensureDatabaseExists_outcomes no_database initial sample_config) as H.
    cbv zeta in H. destruct H as [_ Hrefused].
    by apply (Hrefused (Error "ECONNREFUSED")).
Defined.

(** X5.  [ensureTables] creates the student table first and the teacher
    table second, on the pool it is given.  If the first statement fails the
    second is never sent; it returns only when both have succeeded; and on
    an [undefined] pool it throws before anything is sent. *)
Theorem ensureTables_outcomes (w : World) (s : State) :
  (forall p e,
      pool_query w (events s) p create_student_sql [] = inl e ->
      (ensureTables (Some p) w s).1 = Thrown e /\
      emitted (ensureTables (Some p)) w s =
        [EvPoolQuery p create_student_sql [] (inl e)]) /\
  (forall p,
      (ensureTables (Some p) w s).1 = Returned tt ->
      exists a1 a2,
        emitted (ensureTables (Some p)) w s =
          [EvPoolQuery p create_student_sql [] (inr a1);
           EvPoolQuery p create_teacher_sql [] (inr a2);
           EvConsoleLog [ArgStr "✅ Tables ready"]]) /\
  ensureTables None w s = (Thrown undefined_query, s).
Proof.
  split; [| split; [| done]].
  - intros p e He.
    assert (ensureTables (Some p) w s =
            (Thrown e, grow s [EvPoolQuery p create_student_sql [] (inl e)])) as Hrun.
    { unfold ensureTables, bind, query, settle. by rewrite He. }
    split; [by rewrite Hrun |]. apply emitted_grow. by rewrite Hrun.
  - intros p.
    assert (forall evs, (ensureTables (Some p) w s).2 = grow s evs ->
                        emitted (ensureTables (Some p)) w s = evs) as Hemitted
      by (intros evs; apply emitted_grow).
    revert Hemitted.
    unfold ensureTables, bind, query, settle, console_log.
    repeat case_match; simplify_eq; cbn [fst snd];
      intros Hemitted Hr; try discriminate Hr.
    eexists _, _. apply Hemitted. by rewrite !emit_grow, !grow_grow.
Qed.

Lemma ensureTables_outcomes_witness :
  (exists a1 a2,
      emitted (ensureTables (Some sample_pool)) calm initial =
        [EvPoolQuery sample_pool create_student_sql [] (inr a1);
         EvPoolQuery sample_pool create_teacher_sql [] (inr a2);
         EvConsoleLog [ArgStr "✅ Tables ready"]]) /\
  (ensureTables (Some sample_pool) (answering (inl (Error "ER_DBACCESS_DENIED_ERROR")))
     initial).1 = Thrown (Error "ER_DBACCESS_DENIED_ERROR").
Proof.
  split.
  - destruct (ensureTables_outcomes calm initial) as (_ & Hreturned & _).
    by apply Hreturned.
  - destruct (ensureTables_outcomes
                (answering (inl (Error "ER_DBACCESS_DENIED_ERROR"))) initial)
      as (Hfirst & _ & _).
    by apply (Hfirst sample_pool (Error "ER_DBACCESS_DENIED_ERROR")).
Defined.

(** ** The startup orchestrator, further *)

Lemma loop_trace_budget retries delay i0 evs r :
  loop_trace retries delay i0 evs r ->
  i0 <= retries + 1 ->
  Z.of_nat (attempts evs) <= retries - i0 + 1 /\
  (forall e, r = Thrown e ->
             Z.of_nat (attempts evs) = retries - i0 + 1 /\
             last evs = Some (attempt_failed retries (message e))).
Proof.
  induction 1 as [i Hi | i evs p Hi Hev Hp Hf | evs e Hev Hp
                  | i evs e rest r Hi Hev Hp Hrest IH]; intros Hrange.
  - split; [cbn; lia | done].
  - rewrite attempt_events_attempts by done. split; [lia | done].
  - rewrite attempts_app, attempt_events_attempts by done.
    change (attempts [attempt_failed retries (message e)]) with 0%nat.
    split; [lia |]. intros e' [= <-]. split; [lia |]. by rewrite last_snoc.
  - rewrite attempts_app, attempt_events_attempts by done.
    change (attempts (attempt_failed i (message e) :: EvSetTimeout delay :: rest))
      with (attempts rest).
    destruct IH as [IHle IHthrown]; [lia |]. split; [lia |].
    intros e' ->. destruct (IHthrown e' eq_refl) as [Hn Hlast].
    split; [lia |].
    rewrite last_app, !last_cons, Hlast. done.
Qed.

(** X6.  [connectWithRetry retries delay] never makes more than [retries]
    attempts.  When it throws, it has made exactly [retries] attempts and
    waited [retries - 1] delays of [delay], and the last thing it did was to
    record the failure of attempt number [retries] with the message of the
    error it throws. *)
Theorem connectWithRetry_attempt_budget (w : World) (s : State) (retries delay : Z) :
  let evs := emitted (connectWithRetry retries delay) w s in
  Z.of_nat (attempts evs) <= Z.max 0 retries /\
  (forall e,
      (connectWithRetry retries delay w s).1 = Thrown e ->
      Z.of_nat (attempts evs) = retries /\
      delays evs = replicate (Z.to_nat (retries - 1)) delay /\
      last evs = Some (attempt_failed retries (message e))).
Proof.
  intros evs. subst evs.
  destruct (connectWithRetry_run w s retries delay) as (evs & Hs & Htrace).
  rewrite (emitted_grow _ _ _ _ Hs).
  destruct (Z.le_gt_cases 0 retries) as [Hpos | Hneg].
  - destruct (loop_trace_budget _ _ _ _ _ Htrace) as [Hle Hthrown]; [lia |].
    split; [lia |]. intros e He.
    destruct (Hthrown e He) as [Hn Hlast]. split; [lia |]. split; [| done].
    rewrite (loop_trace_delays _ _ _ _ _ Htrace). f_equal. lia.
  - inversion Htrace as [i Hi | | |]; subst; try lia.
    split; [cbn; lia | done].
Qed.

Lemma connectWithRetry_attempt_budget_witness :
  Z.of_nat (attempts (emitted (connectWithRetry 10 3000) no_database initial)) = 10 /\
  delays (emitted (connectWithRetry 10 3000) no_database initial)
    = replicate (Z.to_nat (10 - 1)) 3000 /\
  last (emitted (connectWithRetry 10 3000) no_database initial)
    = Some (attempt_failed 10 (message (Error "ECONNREFUSED"))).
Proof.
  pose proof (connectWithRetry_attempt_budget no_database initial 10 3000) as H.
  cbv zeta in H. destruct H as [_ Hthrown].
  apply (Hthrown (Error "ECONNREFUSED")). by vm_compute.
Defined.

(** X7.  If attempt number [j] (between 1 and [retries]) is reached and
    does not fail, [connectWithRetry] returns a pool after exactly [j - 1]
    delays of [delay]; in particular a first attempt that does not fail
    gives the pool without any delay. *)
Theorem connectWithRetry_first_success (w : World) (s : State) (retries delay j : Z) :
  let evs := emitted (connectWithRetry retries delay) w s in
  1 <= j <= retries ->
  (j = 1 \/ exists msg, attempt_failed (j - 1) msg ∈ evs) ->
  (forall msg, attempt_failed j msg ∉ evs) ->
  (exists p, (connectWithRetry retries delay w s).1 = Returned (Some p)) /\
  delays evs = replicate (Z.to_nat (j - 1)) delay.
Proof.
  intros evs Hj Hreached Hnone. subst evs.
  destruct (connectWithRetry_run w s retries delay) as (evs & Hs & Htrace).
  rewrite (emitted_grow _ _ _ _ Hs) in *.
  by apply (loop_trace_first_success _ _ _ _ _ Htrace j).
Qed.

Lemma connectWithRetry_first_success_witness :
  (exists p, (connectWithRetry 10 3000 calm initial).1 = Returned (Some p)) /\
  delays (emitted (connectWithRetry 10 3000) calm initial)
    = replicate (Z.to_nat (1 - 1)) 3000.
Proof.
  apply (connectWithRetry_first_success calm initial 10 3000 1).
  - lia.
  - by left.
  - intros msg Hin. apply list_elem_of_In in Hin. vm_compute in Hin.
    repeat (destruct Hin as [Hin | Hin]; [discriminate Hin |]). exact Hin.
Defined.

(** X8.  [connectWithRetry] keeps account of its pools: the pools it has
    created are exactly the one it returns, and none when it throws or
    returns nothing.  It never calls [listen], never ends the process and
    never touches [db]. *)
Theorem connectWithRetry_pool_accounting (w : World) (s : State) (retries delay : Z) :
  let evs := emitted (connectWithRetry retries delay) w s in
  pools evs =
    match (connectWithRetry retries delay w s).1 with
    | Returned (Some p) => [p]
    | _ => []
    end /\
  existsb is_listen evs = false /\
  existsb is_exit evs = false /\
  (forall code, (connectWithRetry retries delay w s).1 <> Exited code) /\
  db (connectWithRetry retries delay w s).2 = db s.
Proof.
  intros evs. subst evs.
  destruct (connectWithRetry_run w s retries delay) as (evs & Hs & Htrace).
  rewrite (emitted_grow _ _ _ _ Hs), Hs.
  destruct (loop_trace_pools _ _ _ _ _ Htrace) as (Hl & Hx & Hr).
  destruct (connectWithRetry retries delay w s).1 as [[p |] | e | c];
    repeat split; try done.
  by destruct Hr as [-> _].
Qed.

Lemma for_each_turn_returned w retries delay l :
  forall s p,
    (for_each l (turn retries delay) w s).1 = Returned (Some p) ->
    exists s0, (attempt w s0).1 = Returned p.
Proof.
  induction l as [| i l IH]; intros s p; [done |].
  cbn [for_each]. unfold bind, ret. rewrite turn_run.
  destruct (attempt w s) as [[q | e | c] s1] eqn:Hattempt; cbn zeta.
  - cbn. intros [= <-]. exists s. by rewrite Hattempt.
  - destruct (i =? retries); [done |]. apply IH.
  - done.
Qed.

Lemma attempt_returned w s p :
  (attempt w s).1 = Returned p ->
  exists ps,
    p = pool_options (collect_params ps) /\
    forall k, k ∈ required_keys -> filled (prop (collect_params ps) k).
Proof.
  unfold attempt, bind. rewrite getDBConfig_unfold. cbn zeta.
  destruct (ssm_send w (events s) db_parameter_names true) as [e | ps]; [done |].
  destruct (_ || _) eqn:Hcheck; [done |].
  pose proof (proj1 (check_passes _) Hcheck) as Hall.
  unfold createPool, console_log, ret.
  repeat case_match; simplify_eq; cbn [fst]; intros Hr; try discriminate Hr.
  injection Hr as <-. by exists ps.
Qed.

(** X9.  Every pool that [connectWithRetry] returns is configured with at
    most 10 connections and with certificate validation switched off, and
    its host, user, password and database are non-empty strings. *)
Theorem connectWithRetry_pool_settings (w : World) (s : State) (retries delay : Z)
    (p : Pool) :
  (connectWithRetry retries delay w s).1 = Returned (Some p) ->
  connectionLimit p = 10 /\ ssl_rejectUnauthorized p = false /\
  filled (pool_host p) /\ filled (pool_user p) /\
  filled (pool_password p) /\ filled (pool_database p).
Proof.
  intros Hr. apply for_each_turn_returned in Hr as [s0 Hr].
  apply attempt_returned in Hr as (ps & -> & Hall).
  cbn. repeat split; try done; apply Hall; unfold required_keys;
    rewrite !elem_of_cons; tauto.
Qed.

Lemma connectWithRetry_pool_settings_witness :
  connectionLimit sample_pool = 10 /\ ssl_rejectUnauthorized sample_pool = false /\
  filled (pool_host sample_pool) /\ filled (pool_user sample_pool) /\
  filled (pool_password sample_pool) /\ filled (pool_database sample_pool).
Proof.
  apply (connectWithRetry_pool_settings slow_database initial 10 3000 sample_pool).
  by vm_compute.
Defined.

(** X10.  The steps of one attempt are strictly ordered.  When the fetcher
    fails, the attempt fails with the same error and nothing but the
    request to the parameter store has happened: the database is not
    contacted.  And [mysql.createPool] is called only after the "create
    database" statement has succeeded on a bootstrap connection that was
    then closed, with options built from the very parameters fetched in
    this attempt. *)
Theorem attempt_pipeline (w : World) (s : State) :
  (forall e,
      (getDBConfig w s).1 = Thrown e ->
      (attempt w s).1 = Thrown e /\
      emitted attempt w s =
        [EvSsmSend db_parameter_names true
           (ssm_send w (events s) db_parameter_names true)]) /\
  (forall opts r,
      EvCreatePool opts r ∈ emitted attempt w s ->
      exists ps post,
        ssm_send w (events s) db_parameter_names true = inr ps /\
        opts = pool_options (collect_params ps) /\
        emitted attempt w s =
          [EvSsmSend db_parameter_names true (inr ps);
           EvCreateConnection
             {| conn_host := prop (collect_params ps) "host";
                conn_user := prop (collect_params ps) "user";
                conn_password := prop (collect_params ps) "password" |} None;
           EvConnQuery (length (events s) + 1)
             (create_database_sql (collect_params ps)) None;
           EvConnEnd (length (events s) + 1) None;
           EvConsoleLog [ArgStr "✅ Database verified"];
           EvCreatePool opts r] ++ post).
Proof.
  assert (forall evs, (attempt w s).2 = grow s evs -> emitted attempt w s = evs)
    as Hemitted by (intros evs; apply emitted_grow).
  revert Hemitted.
  unfold attempt, ensureDatabaseExists, bind.
  rewrite getDBConfig_unfold. cbn zeta.
  unfold createPool, createConnection, connQuery, connEnd, console_log, ret,
    settle_unit.
  destruct (ssm_send w (events s) db_parameter_names true) as [e0 | ps] eqn:Hsend;
    [| destruct (_ || _) eqn:Hcheck].
  1, 2: intros Hemitted; cbn [fst snd] in *;
    rewrite (Hemitted [_]) by (by rewrite emit_grow);
    split; [by intros e [= ->] |];
    intros opts r Hin; apply elem_of_cons in Hin as [Hin | Hin];
    [discriminate Hin | by apply elem_of_nil in Hin].
  intros Hemitted. split; [by repeat case_match |].
  revert Hemitted.
  repeat case_match; simplify_eq; cbn [fst snd]; intros Hemitted opts r;
    rewrite (Hemitted _ ltac:(rewrite ?emit_grow, ?grow_grow; reflexivity));
    cbn [app]; intros Hin;
    repeat (apply elem_of_cons in Hin as [Hin | Hin];
            [try discriminate Hin |]);
    try (by apply elem_of_nil in Hin).
  all: injection Hin as -> ->; exists ps; eexists; split; [done |];
    split; [done |]; rewrite length_app, Nat.add_comm; cbn [length Nat.add app];
    rewrite Nat.add_1_r; reflexivity.
Qed.

Lemma attempt_pipeline_witness :
  ((attempt no_store initial).1 = Thrown (Error "ENOTFOUND") /\
   emitted attempt no_store initial =
     [EvSsmSend db_parameter_names true (inl (Error "ENOTFOUND"))]) /\
  exists ps post,
    ssm_send calm (events initial) db_parameter_names true = inr ps /\
    sample_pool = pool_options (collect_params ps) /\
    emitted attempt calm initial =
      [EvSsmSend db_parameter_names true (inr ps);
       EvCreateConnection
         {| conn_host := prop (collect_params ps) "host";
            conn_user := prop (collect_params ps) "user";
            conn_password := prop (collect_params ps) "password" |} None;
       EvConnQuery (length (events initial) + 1)
         (create_database_sql (collect_params ps)) None;
       EvConnEnd (length (events initial) + 1) None;
       EvConsoleLog [ArgStr "✅ Database verified"];
       EvCreatePool sample_pool None] ++ post.
Proof.
  split.
  - destruct (attempt_pipeline no_store initial) as [Hfetch _].
    by apply (Hfetch (Error "ENOTFOUND")).
  - destruct (attempt_pipeline calm initial) as [_ Hpool].
    apply (Hpool sample_pool None).
    apply list_elem_of_lookup_2 with 5%nat. by vm_compute.
Defined.

(** ** The entry point, further *)

(** X11.  The entry point ends in one of two ways.  Either it returns, and
    then it has called [listen] once, on port 3500, as its last action
    before logging that the server runs, it has not exited, and [db] is the
    one pool created.  Or it exits with status 1, and then the exit directly
    follows the record of the startup error, is the only exit, and [listen]
    was never called. *)
Theorem main_endings (w : World) :
  ((main w initial).1 = Returned tt /\
   exists before p,
     events (main w initial).2 = before ++ [EvListen 3500; server_running] /\
     existsb is_listen before = false /\
     existsb is_exit (events (main w initial).2) = false /\
     db (main w initial).2 = Some p /\
     pools (events (main w initial).2) = [p]) \/
  ((main w initial).1 = Exited 1 /\
   exists before e,
     events (main w initial).2 = before ++ [app_failed e; EvExit 1] /\
     existsb is_exit before = false /\
     existsb is_listen (events (main w initial).2) = false).
Proof.
  destruct (main_startup w) as [evs p a1 a2 Htrace | evs e Htrace
                               | evs p qs e Htrace Hqs];
    destruct (loop_trace_pools _ _ _ _ _ Htrace) as (Hl & Hx & Hp);
    cbn [events db].
  - left. split; [done |].
    exists (evs ++ [EvPoolQuery p create_student_sql [] (inr a1);
                    EvPoolQuery p create_teacher_sql [] (inr a2);
                    EvConsoleLog [ArgStr "✅ Tables ready"]]), p.
    rewrite <- !app_assoc, !existsb_app, pools_app, Hl, Hx, Hp. done.
  - right. split; [done |]. exists evs, e.
    by rewrite !existsb_app, Hl, Hx.
  - right. split; [done |]. exists (evs ++ qs), e.
    rewrite <- !app_assoc, !existsb_app, Hl, Hx. by destruct Hqs.
Qed.

(** ** The routes, further *)

Lemma statements_app evs1 evs2 :
  statements (evs1 ++ evs2) = statements evs1 ++ statements evs2.
Proof. apply omap_app. Qed.

Lemma quiet_still {A} (m : M A) :
  (forall w s, (m w s).2 = s /\ forall code, (m w s).1 <> Exited code) -> quiet 0 m.
Proof.
  intros H w s. destruct (H w s) as [-> Hr]. exists [].
  by rewrite grow_nil.
Qed.

Lemma quiet_ret {A} (a : A) : quiet 0 (ret a).
Proof. by apply quiet_still. Qed.

Lemma quiet_throw {A} e : quiet 0 (@throw A e).
Proof. by apply quiet_still. Qed.

Lemma quiet_read_db : quiet 0 read_db.
Proof. by apply quiet_still. Qed.

Lemma quiet_getenv k : quiet 0 (getenv k).
Proof. by apply quiet_still. Qed.

Lemma quiet_member k v : quiet 0 (member k v).
Proof. apply quiet_still. intros w s. by destruct v. Qed.

Lemma quiet_first_item v : quiet 0 (first_item v).
Proof. apply quiet_still. intros w s. by destruct v. Qed.

Lemma quiet_get_health : quiet 0 get_health.
Proof. by apply quiet_still. Qed.

Lemma quiet_console_error args : quiet 0 (console_error args).
Proof.
  intros w s. exists [EvConsoleError args].
  repeat split; try done. by repeat constructor.
Qed.

Lemma quiet_query handle sql values : quiet 1 (query handle sql values).
Proof.
  intros w s. unfold query. destruct handle as [p |].
  - exists [EvPoolQuery p sql values (pool_query w (events s) p sql values)].
    unfold settle. destruct (pool_query w (events s) p sql values);
      repeat split; try done; by repeat constructor.
  - exists []. rewrite grow_nil. repeat split; try done. cbn. lia.
Qed.

Lemma quiet_bind {A B} n k (m : M A) (f : A -> M B) :
  quiet n m -> (forall a, quiet k (f a)) -> quiet (n + k) (bind m f).
Proof.
  intros Hm Hf w s. unfold bind.
  destruct (Hm w s) as (evs & Hs & Hev & Hn & Hx).
  destruct (m w s) as [[a | e | c] s1]; cbn [fst snd] in *; subst s1.
  - destruct (Hf a w (grow s evs)) as (evs' & Hs' & Hev' & Hn' & Hx').
    exists (evs ++ evs'). rewrite Hs', grow_grow, statements_app, length_app.
    repeat split; try done; [by apply Forall_app | lia].
  - exists evs. repeat split; try done. lia.
  - by destruct (Hx c).
Qed.

Lemma quiet_try_catch {A} n k (m : M A) (handler : JsError -> M A) :
  quiet n m -> (forall e, quiet k (handler e)) -> quiet (n + k) (try_catch m handler).
Proof.
  intros Hm Hh w s. unfold try_catch.
  destruct (Hm w s) as (evs & Hs & Hev & Hn & Hx).
  destruct (m w s) as [[a | e | c] s1]; cbn [fst snd] in *; subst s1.
  - exists evs. repeat split; try done. lia.
  - destruct (Hh e w (grow s evs)) as (evs' & Hs' & Hev' & Hn' & Hx').
    exists (evs ++ evs'). rewrite Hs', grow_grow, statements_app, length_app.
    repeat split; try done; [by apply Forall_app | lia].
  - by destruct (Hx c).
Qed.

Lemma quiet_weaken {A} n n' (m : M A) : quiet n m -> (n <= n')%nat -> quiet n' m.
Proof.
  intros Hm Hle w s. destruct (Hm w s) as (evs & Hs & Hev & Hn & Hx).
  exists evs. repeat split; try done. lia.
Qed.

Ltac quiet_step :=
  first [ apply quiet_ret | apply quiet_throw | apply quiet_read_db
        | apply quiet_getenv | apply quiet_member | apply quiet_first_item
        | apply quiet_console_error | apply quiet_query
        | eapply quiet_bind; [| intros ?]
        | eapply quiet_try_catch; [| intros ?]
        | match goal with
          | |- quiet _ (if ?b then _ else _) => destruct b
          end ].

Lemma route_quiet req : quiet 1 (route req).
Proof.
  destruct req; cbn [route];
    [ eapply quiet_weaken; [apply quiet_get_health | lia] | ..];
    unfold get_health_db, get_root, get_student, get_teacher, post_addstudent,
      post_addteacher, delete_student, delete_teacher;
    (eapply quiet_weaken; [repeat quiet_step | cbn; lia]).
Qed.

Lemma request_events_keep evs :
  Forall (fun e => request_event e = true) evs ->
  existsb is_listen evs = false /\ existsb is_exit evs = false /\ pools evs = [].
Proof.
  induction 1 as [| e evs He _ (IH1 & IH2 & IH3)]; [done |].
  cbn. unfold pools in IH3. rewrite IH1, IH2, IH3. by destruct e.
Qed.

(** X12.  Whatever the request and whatever the database answers, a route
    only sends statements to the pool and writes to the error console: it
    never assigns [db], never creates a pool, never calls [listen] and
    never ends the process.  A request sends at most one statement. *)
Theorem route_keeps_server (req : Request) (w : World) (s : State) :
  db (route req w s).2 = db s /\
  pools (events (route req w s).2) = pools (events s) /\
  Forall (fun e => request_event e = true) (emitted (route req) w s) /\
  (length (statements (emitted (route req) w s)) <= 1)%nat /\
  (forall code, (route req w s).1 <> Exited code).
Proof.
  destruct (route_quiet req w s) as (evs & Hs & Hev & Hn & Hx).
  rewrite (emitted_grow _ _ _ _ Hs), Hs. cbn [db events grow].
  destruct (request_events_keep evs Hev) as (_ & _ & Hp).
  by rewrite pools_app, Hp, app_nil_r.
Qed.

Lemma delete_student_unassigned w s id :
  db s = None ->
  (delete_student id w s).1 = answer 500 "error" "Failed to delete student".
Proof.
  intros Hdb. unfold delete_student, try_catch, bind, read_db, query.
  by rewrite Hdb.
Qed.

Lemma delete_teacher_unassigned w s id :
  db s = None ->
  (delete_teacher id w s).1 = answer 500 "error" "Failed to delete teacher".
Proof.
  intros Hdb. unfold delete_teacher, try_catch, bind, read_db, query.
  by rewrite Hdb.
Qed.

Ltac delete_leaf :=
  eexists; split; [reflexivity |]; cbn [status]; split; [auto |];
  split;
  [ intros H404;
    first [ discriminate H404
          | eexists _, _; split; [reflexivity |]; split; [eassumption |];
            cbn [get_field]; eassumption ]
  | intros (p0 & r0 & Hp & Hr & Hz);
    first [ discriminate Hp
          | injection Hp as <-;
            match goal with
            | Hq : pool_query _ _ _ _ _ = _ |- _ =>
                rewrite Hq in Hr;
                first [ discriminate Hr
                      | injection Hr as <-; cbn in Hz;
                        first [ reflexivity | congruence | discriminate Hz ] ]
            end ] ].

(** X13.  The two DELETE routes always answer: no failure of the database
    (a rejected statement, an unusable result, even an unassigned [db])
    escapes the handler, and the status is 200, 404 or 500.  The status is
    404 exactly when the statement succeeds and reports the number 0 as
    [affectedRows]. *)
Theorem delete_routes_always_answer (w : World) (s : State) (id : string) :
  (exists resp,
      (delete_student id w s).1 = Returned resp /\
      (status resp = 200 \/ status resp = 404 \/ status resp = 500) /\
      (status resp = 404 <->
       exists p result,
         db s = Some p /\
         pool_query w (events s) p delete_student_sql [JStr id] = inr result /\
         strict_eq_zero (get_field "affectedRows" result) = true)) /\
  (exists resp,
      (delete_teacher id w s).1 = Returned resp /\
      (status resp = 200 \/ status resp = 404 \/ status resp = 500) /\
      (status resp = 404 <->
       exists p result,
         db s = Some p /\
         pool_query w (events s) p delete_teacher_sql [JStr id] = inr result /\
         strict_eq_zero (get_field "affectedRows" result) = true)).
Proof.
  split.
  - destruct (db s) as [p |] eqn:Hdb.
    + rewrite (delete_student_run w s p id Hdb).
      destruct (pool_query w (events s) p delete_student_sql [JStr id])
        as [e | result] eqn:Hq; [delete_leaf |].
      destruct result as [| | b | q | text | items | fields];
        cbn [get_field strict_eq_zero]; try delete_leaf.
      destruct (strict_eq_zero (field_of "affectedRows" fields)) eqn:Hzero;
        delete_leaf.
    + rewrite (delete_student_unassigned w s id Hdb). delete_leaf.
  - destruct (db s) as [p |] eqn:Hdb.
    + rewrite (delete_teacher_run w s p id Hdb).
      destruct (pool_query w (events s) p delete_teacher_sql [JStr id])
        as [e | result] eqn:Hq; [delete_leaf |].
      destruct result as [| | b | q | text | items | fields];
        cbn [get_field strict_eq_zero]; try delete_leaf.
      destruct (strict_eq_zero (field_of "affectedRows" fields)) eqn:Hzero;
        delete_leaf.
    + rewrite (delete_teacher_unassigned w s id Hdb). delete_leaf.
Qed.

(** X14.  [GET /health/db] always answers, with status 200 or 500: no
    failure escapes the handler.  In particular, while [db] is unassigned it
    answers 500 with database "down" and the message of the error raised by
    the access to [db.query], after logging that message, and sends nothing
    to any pool. *)
Theorem health_db_always_answers (w : World) (s : State) :
  (exists resp,
      (get_health_db w s).1 = Returned resp /\
      (status resp = 200 \/ status resp = 500)) /\
  (db s = None ->
   get_health_db w s =
     (Returned {| status := 500;
                  body := JObj [("status", JStr "error"); ("database", JStr "down");
                                ("error", JStr (message undefined_query))] |},
      emit (EvConsoleError [ArgStr "DB health check failed:";
                            ArgStr (message undefined_query)]) s)).
Proof.
  split.
  - destruct (db s) as [p |] eqn:Hdb.
    + rewrite (get_health_db_run w s p Hdb).
      destruct (pool_query w (events s) p probe_sql []) as [e | rows].
      * eexists. split; [reflexivity |]. by right.
      * destruct rows; eexists; (split; [reflexivity |]); cbn; auto.
    + unfold get_health_db, try_catch, bind, read_db, query. rewrite Hdb.
      eexists. split; [reflexivity |]. by right.
  - intros Hdb. unfold get_health_db, try_catch, bind, read_db, query.
    by rewrite Hdb.
Qed.

Lemma health_db_always_answers_witness :
  get_health_db calm unassigned =
    (Returned {| status := 500;
                 body := JObj [("status", JStr "error"); ("database", JStr "down");
                               ("error", JStr (message undefined_query))] |},
     emit (EvConsoleError [ArgStr "DB health check failed:";
                           ArgStr (message undefined_query)]) unassigned).
Proof.
  destruct (health_db_always_answers calm unassigned) as [_ Hunassigned].
  by apply Hunassigned.
Defined.

(** X15.  [GET /teacher] on a server whose [db] is the pool [p] sends the
    one statement "SELECT * FROM teacher".  When it succeeds the answer is
    200 and its body is the rows; when it fails there is no answer at all:
    the statement's error escapes the handler, which has no [try]. *)
Theorem teacher_route_answers (w : World) (s : State) (p : Pool) :
  db s = Some p ->
  emitted get_teacher w s =
    [EvPoolQuery p select_teachers_sql []
       (pool_query w (events s) p select_teachers_sql [])] /\
  (forall rows,
      pool_query w (events s) p select_teachers_sql [] = inr rows ->
      (get_teacher w s).1 = Returned {| status := 200; body := stringify rows |}) /\
  (forall e,
      pool_query w (events s) p select_teachers_sql [] = inl e ->
      (get_teacher w s).1 = Thrown e).
Proof.
  intros Hdb.
  assert (forall evs, (get_teacher w s).2 = grow s evs -> emitted get_teacher w s = evs)
    as Hemitted by (intros evs; apply emitted_grow).
  revert Hemitted.
  unfold get_teacher, bind, read_db, query, settle, ret.
  rewrite Hdb. fold select_teachers_sql.
  destruct (pool_query w (events s) p select_teachers_sql []) as [e | rows];
    intros Hemitted; cbn [fst snd] in *.
  - split; [by apply Hemitted |]. split; [done | by intros ? [= ->]].
  - split; [by apply Hemitted |]. split; [by intros ? [= ->] | done].
Qed.

Lemma teacher_route_answers_witness :
  (get_teacher calm started).1 = Returned {| status := 200; body := stringify (JArr []) |} /\
  (get_teacher (answering (inl (Error "ER_NO_SUCH_TABLE"))) started).1
    = Thrown (Error "ER_NO_SUCH_TABLE").
Proof.
  split.
  - destruct (teacher_route_answers calm started sample_pool) as (_ & Hrows & _);
      [reflexivity |].
    by apply Hrows.
  - destruct (teacher_route_answers (answering (inl (Error "ER_NO_SUCH_TABLE")))
                started sample_pool) as (_ & _ & Hfailed); [reflexivity |].
    by apply Hfailed.
Defined.

Lemma post_addstudent_run w s p req_body :
  db s = Some p -> req_body <> JUndefined -> req_body <> JNull ->
  let values := [get_field "name" req_body; get_field "rollNo" req_body;
                 get_field "class" req_body] in
  let r := pool_query w (events s) p insert_student_sql values in
  post_addstudent req_body w s =
    (match r with
     | inr _ => answer 200 "message" "Student added"
     | inl e => Thrown e
     end,
     emit (EvPoolQuery p insert_student_sql values r) s).
Proof.
  intros Hdb Hu Hn. cbv zeta.
  unfold post_addstudent, bind, member, read_db, query, settle, ret.
  destruct req_body; try done; rewrite Hdb; fold insert_student_sql;
    by destruct (pool_query _ _ _ _ _).
Qed.

Lemma post_addteacher_run w s p req_body :
  db s = Some p -> req_body <> JUndefined -> req_body <> JNull ->
  let values := [get_field "name" req_body; get_field "subject" req_body;
                 get_field "class" req_body] in
  let r := pool_query w (events s) p insert_teacher_sql values in
  post_addteacher req_body w s =
    (match r with
     | inr _ => answer 200 "message" "Teacher added"
     | inl e => Thrown e
     end,
     emit (EvPoolQuery p insert_teacher_sql values r) s).
Proof.
  intros Hdb Hu Hn. cbv zeta.
  unfold post_addteacher, bind, member, read_db, query, settle, ret.
  destruct req_body; try done; rewrite Hdb; fold insert_teacher_sql;
    by destruct (pool_query _ _ _ _ _).
Qed.

(** X16.  [POST /addstudent] and [POST /addteacher] do not validate the
    body.  For any body other than [undefined] and [null] they send one
    INSERT whose three values are the body's [name], [rollNo] (respectively
    [subject]) and [class], in this order, [undefined] for a field the body
    lacks.  If and only if that statement succeeds the answer is 200 with
    "Student added" (respectively "Teacher added"); when it fails its error
    escapes the handler.  Two bodies that agree on those three fields are
    handled in the same way. *)
Theorem post_routes_insert (w : World) (s : State) (p : Pool) (req_body : Json) :
  db s = Some p -> req_body <> JUndefined -> req_body <> JNull ->
  let student := [get_field "name" req_body; get_field "rollNo" req_body;
                  get_field "class" req_body] in
  let teacher := [get_field "name" req_body; get_field "subject" req_body;
                  get_field "class" req_body] in
  emitted (post_addstudent req_body) w s =
    [EvPoolQuery p insert_student_sql student
       (pool_query w (events s) p insert_student_sql student)] /\
  emitted (post_addteacher req_body) w s =
    [EvPoolQuery p insert_teacher_sql teacher
       (pool_query w (events s) p insert_teacher_sql teacher)] /\
  (forall a,
      pool_query w (events s) p insert_student_sql student = inr a ->
      (post_addstudent req_body w s).1 = answer 200 "message" "Student added") /\
  (forall a,
      pool_query w (events s) p insert_teacher_sql teacher = inr a ->
      (post_addteacher req_body w s).1 = answer 200 "message" "Teacher added") /\
  (forall e,
      pool_query w (events s) p insert_student_sql student = inl e ->
      (post_addstudent req_body w s).1 = Thrown e) /\
  (forall e,
      pool_query w (events s) p insert_teacher_sql teacher = inl e ->
      (post_addteacher req_body w s).1 = Thrown e) /\
  (forall other,
      other <> JUndefined -> other <> JNull ->
      get_field "name" other = get_field "name" req_body ->
      get_field "rollNo" other = get_field "rollNo" req_body ->
      get_field "class" other = get_field "class" req_body ->
      post_addstudent other w s = post_addstudent req_body w s) /\
  (forall other,
      other <> JUndefined -> other <> JNull ->
      get_field "name" other = get_field "name" req_body ->
      get_field "subject" other = get_field "subject" req_body ->
      get_field "class" other = get_field "class" req_body ->
      post_addteacher other w s = post_addteacher req_body w s).
Proof.
  intros Hdb Hu Hn student teacher.
  pose proof (post_addstudent_run w s p req_body Hdb Hu Hn) as Hstudent.
  pose proof (post_addteacher_run w s p req_body Hdb Hu Hn) as Hteacher.
  cbv zeta in Hstudent, Hteacher. fold student in Hstudent. fold teacher in Hteacher.
  repeat split.
  - apply emitted_grow. by rewrite Hstudent.
  - apply emitted_grow. by rewrite Hteacher.
  - intros a Ha. by rewrite Hstudent, Ha.
  - intros a Ha. by rewrite Hteacher, Ha.
  - intros e He. by rewrite Hstudent, He.
  - intros e He. by rewrite Hteacher, He.
  - intros other Hou Hon H1 H2 H3.
    rewrite (post_addstudent_run w s p other Hdb Hou Hon). cbv zeta.
    by rewrite H1, H2, H3, Hstudent.
  - intros other Hou Hon H1 H2 H3.
    rewrite (post_addteacher_run w s p other Hdb Hou Hon). cbv zeta.
    by rewrite H1, H2, H3, Hteacher.
Qed.

Lemma post_routes_insert_witness :
  emitted (post_addstudent (JObj [("name", JStr "Alice"); ("class", JStr "5A");
                                  ("age", JNum 9)])) calm started =
    [EvPoolQuery sample_pool insert_student_sql
       [JStr "Alice"; JUndefined; JStr "5A"] (inr (JArr []))] /\
  (post_addstudent (JObj [("name", JStr "Alice"); ("class", JStr "5A");
                          ("age", JNum 9)]) calm started).1
    = answer 200 "message" "Student added".
Proof.
  pose proof (post_routes_insert calm started sample_pool
                (JObj [("name", JStr "Alice"); ("class", JStr "5A");
                       ("age", JNum 9)]) eq_refl) as H.
  cbv zeta in H.
  destruct H as (Hevents & _ & Hadded & _); [done | done |].
  split; [exact Hevents |]. by apply (Hadded (JArr [])).
Defined.

(** ** Configuration and retry bound *)

(** What is stored under [k] only depends on what was stored under [k]
    before. *)
Lemma foldl_store_same_start ps k params params' :
  params !! k = params' !! k ->
  foldl store_param params ps !! k = foldl store_param params' ps !! k.
Proof.
  revert params params'. induction ps as [| p ps IH]; intros params params' Hk;
    [done |].
  cbn [foldl]. apply IH. unfold store_param, set_prop.
  case_decide; [done |].
  destruct (decide (param_key p = k)) as [-> | Hne].
  - by rewrite !lookup_insert_eq.
  - by rewrite !lookup_insert_ne.
Qed.

(** Wherever they stand in the answer, parameters under other keys do not
    reach a required property. *)
Lemma foldl_store_required_only ps k params :
  k ∈ required_keys ->
  foldl store_param params ps !! k
    = foldl store_param params (required_only ps) !! k.
Proof.
  intros Hk. revert params. unfold required_only.
  induction ps as [| p ps IH]; intros params; [done |].
  destruct (decide (param_key p ∈ required_keys)) as [Hin | Hout].
  - rewrite filter_cons_True by done. cbn [foldl]. apply IH.
  - rewrite filter_cons_False by done. cbn [foldl]. rewrite IH.
    apply foldl_store_same_start. apply set_prop_other.
    intros Heq. apply Hout. by rewrite Heq.
Qed.

(** X17.  Parameters that the store returns under other keys than host,
    user, password and name are ignored wherever they stand in the answer:
    two answers with the same parameters under the four required keys, in
    the same order, give the same four required properties, the same
    "create database" statement and the same options of the pool. *)
Theorem other_parameters_ignored (ps ps' : list SsmParameter) :
  required_only ps = required_only ps' ->
  (forall k, k ∈ required_keys ->
             prop (collect_params ps) k = prop (collect_params ps') k) /\
  pool_options (collect_params ps) = pool_options (collect_params ps') /\
  create_database_sql (collect_params ps) = create_database_sql (collect_params ps').
Proof.
  intros Hsame_required.
  assert (forall k, k ∈ required_keys ->
            prop (collect_params ps) k = prop (collect_params ps') k) as Hsame.
  { intros k Hk. unfold prop, collect_params.
    by rewrite (foldl_store_required_only ps k ∅ Hk),
      (foldl_store_required_only ps' k ∅ Hk), Hsame_required. }
  split; [done |].
  unfold pool_options, create_database_sql.
  rewrite !Hsame; [done | ..]; unfold required_keys; rewrite !elem_of_cons; tauto.
Qed.

Lemma other_parameters_ignored_witness :
  (forall k, k ∈ required_keys ->
             prop (collect_params crowded_parameters) k
               = prop (collect_params (sample_parameters "school")) k) /\
  pool_options (collect_params crowded_parameters) = sample_pool /\
  create_database_sql (collect_params crowded_parameters)
    = create_database_sql sample_config.
Proof.
  apply (other_parameters_ignored crowded_parameters (sample_parameters "school")).
  by vm_compute.
Defined.

Lemma for_each_turn_larger_bound w delay retries retries' p n :
  forall i s,
    i + Z.of_nat n = retries + 1 -> retries <= retries' ->
    (for_each (seqZ i (Z.of_nat n)) (turn retries delay) w s).1 = Returned (Some p) ->
    for_each (seqZ i (retries' - i + 1)) (turn retries' delay) w s =
      for_each (seqZ i (Z.of_nat n)) (turn retries delay) w s.
Proof.
  induction n as [| n IH]; intros i s Hi Hle; [done |].
  rewrite (seqZ_cons i (retries' - i + 1)), (seqZ_cons i (Z.of_nat (S n))) by lia.
  replace (Z.pred (Z.of_nat (S n))) with (Z.of_nat n) by lia.
  replace (Z.pred (retries' - i + 1)) with (retries' - Z.succ i + 1) by lia.
  cbn [for_each]. unfold bind, ret. rewrite !turn_run.
  destruct (attempt w s) as [[q | e | c] s1]; cbn zeta; cbn [fst];
    [done | | done].
  destruct (Z.eqb_spec i retries) as [-> | Hne]; cbn [fst]; [done |].
  destruct (Z.eqb_spec i retries') as [-> | Hne']; [lia |].
  apply IH; lia.
Qed.

(** X18.  The retry bound only matters to a startup that fails: when
    [connectWithRetry retries delay] returns a pool, every larger bound
    gives the same pool, with the same history. *)
Theorem connectWithRetry_larger_bound (w : World) (s : State)
    (retries retries' delay : Z) (p : Pool) :
  retries <= retries' ->
  (connectWithRetry retries delay w s).1 = Returned (Some p) ->
  connectWithRetry retries' delay w s = connectWithRetry retries delay w s.
Proof.
  intros Hle Hr. unfold connectWithRetry in *.
  destruct (Z.le_gt_cases 0 retries) as [Hpos | Hneg].
  - pose proof (for_each_turn_larger_bound w delay retries retries' p
                  (Z.to_nat retries) 1 s) as H.
    rewrite Z2Nat.id in H by done.
    replace (retries' - 1 + 1) with retries' in H by lia.
    apply H; [lia | done | done].
  - unfold seqZ in Hr. rewrite Z2Nat.nonpos in Hr by lia. done.
Qed.

Lemma connectWithRetry_larger_bound_witness :
  connectWithRetry 10 3000 slow_database initial
    = connectWithRetry 4 3000 slow_database initial.
Proof.
  apply (connectWithRetry_larger_bound slow_database initial 4 10 3000 sample_pool).
  - lia.
  - by vm_compute.
Defined.
